(** * svgpoly: adaptive flattening of Bezier curves and arcs

    A shallow embedding of [bezflatten.py] (the AGG adaptive subdivision of
    quadratic and cubic Bezier curves) and of [svg2poly.py]: its flattening
    part ([flatten_arc], [segment2polyline]) and, of the code around it,
    [polyline2pathd], the transform functions of [parse_transform], the
    assembly of parts in [svg2linesegments], [bounding_box] and the
    geometries of [output_geojson].

    Numbers.  A Python [float] is an IEEE 754 binary64 value, which is what
    Rocq's primitive [float] is: [+], [-], [*], [/], [abs] and the
    comparisons below are the very operations the interpreter performs,
    NaN, infinities and signed zeros included.  A Python [complex] is a pair
    of such floats.  What Python adds on top of IEEE arithmetic is written
    out: [x / y] raises [ZeroDivisionError] when [y] is zero, [x ** 2]
    settles NaN, the infinities, the zeros and [1.0] and [-1.0] itself,
    hands every other [x] to libm's [pow] and raises [OverflowError] when
    that overflows, and [abs] of a complex raises [OverflowError] when its
    finite components have an infinite modulus.

    The three libm functions the code reaches through [x ** 2] ([pow]),
    through [math.atan2] and through [abs] of a complex ([hypot]) are not
    part of the repository, and the value of [pow(x, 2.0)] need not be the
    rounded product [x * x]; they are parameters of the development.  So is
    the evaluator [arc.point] of an [svgpathtools.Arc].

    Recursion.  The flatteners are recursive; they are defined by recursion
    on a fuel argument, [None] meaning that the fuel ran out before the call
    returned.  For the Bezier flatteners enough fuel always exists
    ([flatten3_total], [flatten4_total]).  The interpreter's own limit on
    the depth of the call stack is not modelled: a recursion that no fuel
    exhausts is a recursion without bound. *)

From Stdlib Require Import Floats ZArith List Bool String Lia.
Import ListNotations.

Set Warnings "-inexact-float".

(** ** Exceptions and results *)

Inductive exn : Type :=
| ZeroDivisionError
| OverflowError
| ValueError (msg : string)
| TypeError (msg : string).

Inductive result (A : Type) : Type :=
| Ok (a : A)
| Raise (e : exn).

Arguments Ok {A} a.
Arguments Raise {A} e.

Definition bind {A B : Type} (r : result A) (k : A -> result B) : result B :=
  match r with
  | Ok a => k a
  | Raise e => Raise e
  end.

(** A call that may also run out of fuel. *)
Definition run (A : Type) : Type := option (result A).

Definition ret {A : Type} (a : A) : run A := Some (Ok a).

Definition bind_run {A B : Type} (r : run A) (k : A -> run B) : run B :=
  match r with
  | None => None
  | Some (Raise e) => Some (Raise e)
  | Some (Ok a) => k a
  end.

Declare Scope result_scope.
Delimit Scope result_scope with result.
Notation "x <- c ;; k" := (bind c (fun x => k))
  (at level 61, c at next level, right associativity) : result_scope.

Declare Scope run_scope.
Delimit Scope run_scope with run.
Notation "x <- c ;; k" := (bind_run c (fun x => k))
  (at level 61, c at next level, right associativity) : run_scope.

(** ** Floats as Python sees them *)

Open Scope float_scope.

(** [x / y] on floats. *)
Definition fdiv (x y : float) : result float :=
  if y =? 0 then Raise ZeroDivisionError else Ok (x / y).

(** [math.pi]. *)
Definition pi : float := 0x1.921fb54442d18p+1.

(** ** Complex numbers *)

Record complex : Type := Complex { real : float; imag : float }.

Definition Cadd (a b : complex) : complex :=
  Complex (real a + real b) (imag a + imag b).

Definition Csub (a b : complex) : complex :=
  Complex (real a - real b) (imag a - imag b).

(** [z / x] for a nonzero float [x].  The interpreter converts [x] to the
    complex [x + 0j] and takes the quotient of two complex numbers; of its
    two branches the one for [|b.real| >= |b.imag|] applies, with
    [b.imag = 0].  The code divides by 2 only. *)
Definition Cdiv_real (z : complex) (x : float) : complex :=
  let ratio := 0 / x in
  let denom := x + 0 * ratio in
  Complex ((real z + imag z * ratio) / denom)
          ((imag z - real z * ratio) / denom).

(** [x * z] for a float [x]: the product of [x + 0j] and [z]. *)
Definition Cscale (x : float) (z : complex) : complex :=
  Complex (x * real z - 0 * imag z) (x * imag z + 0 * real z).

Declare Scope complex_scope.
Delimit Scope complex_scope with C.
Bind Scope complex_scope with complex.
Infix "+" := Cadd : complex_scope.
Infix "-" := Csub : complex_scope.
Infix "/" := Cdiv_real : complex_scope.
Arguments Cdiv_real z%_C x%_float.

(** ** bezflatten.py *)

Definition CURVE_DISTANCE_EPSILON : float := 1e-30.
Definition CURVE_COLLINEARITY_EPSILON : float := 1e-30.
Definition CURVE_ANGLE_TOLERANCE_EPSILON : float := 0.01.
Definition CURVE_RECURSION_LIMIT : Z := 32.

(** What one call decides before it recurses: it returns a list, or it
    reaches the line [# Continue subdivision]. *)
Inductive verdict : Type :=
| Return (pts : list complex)
| Subdivide.

(** The deviation of [p] from the chord [d] ending in [q]:
    [abs((p.real - q.real) * d.imag - (p.imag - q.imag) * d.real)]. *)
Definition cross (p q d : complex) : float :=
  abs ((real p - real q) * imag d - (imag p - imag q) * real d).

(** The test at the end of both collinear branches of [flatten3]. *)
Definition within (dist tol_dist_sq : float) (p : complex) : verdict :=
  if dist <? tol_dist_sq then Return [p] else Subdivide.

Section Libm.

(** [pow], [atan2] and [hypot] of the C library. *)
Variable pow : float -> float -> float.
Variable atan2 : float -> float -> float.
Variable hypot : float -> float -> float.

(** [x ** 2] on floats: [float_pow] of the interpreter, the exponent [2]
    converted to [2.0].  It settles the special cases itself: a NaN is
    returned as it is, an infinity gives [inf], a zero of either sign gives
    [0.0], a negative [x] is replaced by [-x] (the exponent is an even
    integer, so the result is not negated), and [1.0] gives [1.0].  Every
    other [x] goes to libm as [pow(x, 2.0)].  An infinite result is the
    range error that the interpreter turns into [OverflowError]; a range
    error with the result zero is dropped by the interpreter, and libm
    (glibc) reports none for a result that is not zero, so that a square
    that underflows is returned as it is. *)
Definition pow2 (x : float) : result float :=
  if is_nan x then Ok x
  else if is_infinity x then Ok (abs x)
  else if x =? 0 then Ok 0
  else
    let iv := if x <? 0 then - x else x in
    if iv =? 1 then Ok 1
    else
      let ix := pow iv 2 in
      if is_infinity ix then Raise OverflowError else Ok ix.

(** [d.real**2 + d.imag**2], the squared length of [d]. *)
Definition sq_norm (d : complex) : result float :=
  (a <- pow2 (real d) ;;
   b <- pow2 (imag d) ;;
   Ok (a + b))%result.

Definition point_sq_distance (p1 p2 : complex) : result float :=
  let d := (p1 - p2)%C in
  sq_norm d.

(** The squared distance from [p] to the chord from [a] to [b], the
    projection parameter [u] of [p] being known: the three-way [if] that
    follows the "simple collinear case". *)
Definition clamped_sq_distance (u : float) (p a b d : complex) : result float :=
  if u <=? 0 then point_sq_distance p a
  else if 1 <=? u then point_sq_distance p b
  else point_sq_distance p (a + Cscale u d)%C.

(** [abs(atan2(v.imag, v.real) - atan2(w.imag, w.real))], reflected into
    [0, pi] when it is at least [pi]. *)
Definition turning_angle (v w : complex) : float :=
  let da := abs (atan2 (imag v) (real v) - atan2 (imag w) (real w)) in
  if pi <=? da then 2 * pi - da else da.

(** [abs(z)] for a complex [z]. *)
Definition Cabs (z : complex) : result float :=
  if is_finite (real z) && is_finite (imag z) then
    let r := hypot (real z) (imag z) in
    if is_finite r then Ok r else Raise OverflowError
  else if is_infinity (real z) || is_infinity (imag z) then Ok infinity
  else Ok nan.

(** The body of [flatten3] between the recursion-limit test and the
    recursive calls. *)
Definition flatten3_stop (p1 p2 p3 : complex) (tol_dist tol_angle : float)
  : result verdict :=
  let tol_dist_sq := tol_dist * tol_dist in
  let p12 := ((p1 + p2) / 2)%C in
  let p23 := ((p2 + p3) / 2)%C in
  let p123 := ((p12 + p23) / 2)%C in
  let d := (p3 - p1)%C in
  let dist := cross p2 p3 d in
  if CURVE_COLLINEARITY_EPSILON <? dist then
    (n <- sq_norm d ;;
     if dist * dist <=? tol_dist_sq * n then
       if tol_angle <? CURVE_ANGLE_TOLERANCE_EPSILON then Ok (Return [p123])
       else
         let p3_2 := (p3 - p2)%C in
         let p2_1 := (p2 - p1)%C in
         let da := turning_angle p3_2 p2_1 in
         if da <? tol_angle then Ok (Return [p123]) else Ok Subdivide
     else Ok Subdivide)%result
  else
    (da <- sq_norm d ;;
     let p2_1 := (p2 - p1)%C in
     if da =? 0 then
       dist <- point_sq_distance p1 p2 ;;
       Ok (within dist tol_dist_sq p2)
     else
       dist <- fdiv (real p2_1 * real d + imag p2_1 * imag d) da ;;
       if (0 <? dist) && (dist <? 1) then Ok (Return [])
       else
         dist <- clamped_sq_distance dist p2 p1 p3 d ;;
         Ok (within dist tol_dist_sq p2))%result.

Fixpoint flatten3 (fuel : nat) (p1 p2 p3 : complex)
    (tol_dist tol_angle : float) (level : Z) : run (list complex) :=
  match fuel with
  | O => None
  | S fuel =>
    if (CURVE_RECURSION_LIMIT <? level)%Z then ret []
    else
      match flatten3_stop p1 p2 p3 tol_dist tol_angle with
      | Raise e => Some (Raise e)
      | Ok (Return pts) => ret pts
      | Ok Subdivide =>
        let p12 := ((p1 + p2) / 2)%C in
        let p23 := ((p2 + p3) / 2)%C in
        let p123 := ((p12 + p23) / 2)%C in
        (l <- flatten3 fuel p1 p12 p123 tol_dist tol_angle (level + 1) ;;
         r <- flatten3 fuel p123 p23 p3 tol_dist tol_angle (level + 1) ;;
         ret (l ++ r))%run
      end
  end.

(** The last test of case 0 of [flatten4]: the larger of the two squared
    distances decides, and the point it belongs to is the one returned. *)
Definition governing (d2 d3 tol_dist_sq : float) (p2 p3 : complex) : verdict :=
  if d3 <? d2 then
    if d2 <? tol_dist_sq then Return [p2] else Subdivide
  else if d3 <? tol_dist_sq then Return [p3]
  else Subdivide.

(** The body of [flatten4] between the recursion-limit test and the
    recursive calls. *)
Definition flatten4_stop (p1 p2 p3 p4 : complex) (tol_dist tol_angle : float)
  : result verdict :=
  let tol_dist_sq := tol_dist * tol_dist in
  let p12 := ((p1 + p2) / 2)%C in
  let p23 := ((p2 + p3) / 2)%C in
  let p34 := ((p3 + p4) / 2)%C in
  let p123 := ((p12 + p23) / 2)%C in
  let p234 := ((p23 + p34) / 2)%C in
  let p1234 := ((p123 + p234) / 2)%C in
  let d := (p4 - p1)%C in
  let d2 := cross p2 p4 d in
  let d3 := cross p3 p4 d in
  let case :=
    (Z.shiftl (Z.b2z (CURVE_COLLINEARITY_EPSILON <? d2)%float) 1
     + Z.b2z (CURVE_COLLINEARITY_EPSILON <? d3)%float)%Z in
  if (case =? 0)%Z then
    (k <- sq_norm d ;;
     if k =? 0 then
       d2 <- point_sq_distance p1 p2 ;;
       d3 <- point_sq_distance p4 p3 ;;
       Ok (governing d2 d3 tol_dist_sq p2 p3)
     else
       k <- fdiv 1 k ;;
       let da1 := real p2 - real p1 in
       let da2 := imag p2 - imag p1 in
       let d2 := k * (da1 * real d + da2 * imag d) in
       let da1 := real p3 - real p1 in
       let da2 := imag p3 - imag p1 in
       let d3 := k * (da1 * real d + da2 * imag d) in
       if (0 <? d2) && (d2 <? 1) && ((0 <? d3) && (d3 <? 1)) then Ok (Return [])
       else
         d2 <- clamped_sq_distance d2 p2 p1 p4 d ;;
         d3 <- clamped_sq_distance d3 p3 p1 p4 d ;;
         Ok (governing d2 d3 tol_dist_sq p2 p3))%result
  else if (case =? 1)%Z then
    (n <- sq_norm d ;;
     if d3 * d3 <=? tol_dist_sq * n then
       if tol_angle <? CURVE_ANGLE_TOLERANCE_EPSILON then Ok (Return [p23])
       else
         let p4_3 := (p4 - p3)%C in
         let p3_2 := (p3 - p2)%C in
         let da1 := turning_angle p4_3 p3_2 in
         if da1 <? tol_angle then Ok (Return [p2; p3]) else Ok Subdivide
     else Ok Subdivide)%result
  else if (case =? 2)%Z then
    (n <- sq_norm d ;;
     if d2 * d2 <=? tol_dist_sq * n then
       if tol_angle <? CURVE_ANGLE_TOLERANCE_EPSILON then Ok (Return [p23])
       else
         let p3_2 := (p3 - p2)%C in
         let p2_1 := (p2 - p1)%C in
         let da1 := turning_angle p3_2 p2_1 in
         if da1 <? tol_angle then Ok (Return [p2; p3]) else Ok Subdivide
     else Ok Subdivide)%result
  else if (case =? 3)%Z then
    (n <- sq_norm d ;;
     if (d2 + d3) * (d2 + d3) <=? tol_dist_sq * n then
       if tol_angle <? CURVE_ANGLE_TOLERANCE_EPSILON then Ok (Return [p23])
       else
         let da1 := turning_angle (p3 - p2)%C (p2 - p1)%C in
         let da2 := turning_angle (p4 - p3)%C (p3 - p2)%C in
         if da1 + da2 <? tol_angle then Ok (Return [p23]) else Ok Subdivide
     else Ok Subdivide)%result
  else Ok Subdivide.

Fixpoint flatten4 (fuel : nat) (p1 p2 p3 p4 : complex)
    (tol_dist tol_angle : float) (level : Z) : run (list complex) :=
  match fuel with
  | O => None
  | S fuel =>
    if (CURVE_RECURSION_LIMIT <? level)%Z then ret []
    else
      match flatten4_stop p1 p2 p3 p4 tol_dist tol_angle with
      | Raise e => Some (Raise e)
      | Ok (Return pts) => ret pts
      | Ok Subdivide =>
        let p12 := ((p1 + p2) / 2)%C in
        let p23 := ((p2 + p3) / 2)%C in
        let p34 := ((p3 + p4) / 2)%C in
        let p123 := ((p12 + p23) / 2)%C in
        let p234 := ((p23 + p34) / 2)%C in
        let p1234 := ((p123 + p234) / 2)%C in
        (l <- flatten4 fuel p1 p12 p123 p1234 tol_dist tol_angle (level + 1) ;;
         r <- flatten4 fuel p1234 p234 p34 p4 tol_dist tol_angle (level + 1) ;;
         ret (l ++ r))%run
      end
  end.

(** The number of calls of [flatten4] that one call gives rise to, itself
    included: the recursion of [flatten4] with a counter in place of the
    list. *)
Fixpoint flatten4_calls (fuel : nat) (p1 p2 p3 p4 : complex)
    (tol_dist tol_angle : float) (level : Z) : run N :=
  match fuel with
  | O => None
  | S fuel =>
    if (CURVE_RECURSION_LIMIT <? level)%Z then ret 1%N
    else
      match flatten4_stop p1 p2 p3 p4 tol_dist tol_angle with
      | Raise e => Some (Raise e)
      | Ok (Return _) => ret 1%N
      | Ok Subdivide =>
        let p12 := ((p1 + p2) / 2)%C in
        let p23 := ((p2 + p3) / 2)%C in
        let p34 := ((p3 + p4) / 2)%C in
        let p123 := ((p12 + p23) / 2)%C in
        let p234 := ((p23 + p34) / 2)%C in
        let p1234 := ((p123 + p234) / 2)%C in
        (l <- flatten4_calls fuel p1 p12 p123 p1234
                tol_dist tol_angle (level + 1) ;;
         r <- flatten4_calls fuel p1234 p234 p34 p4
                tol_dist tol_angle (level + 1) ;;
         ret (1 + l + r)%N)%run
      end
  end.

(** ** svg2poly.py *)

(** An [svgpathtools.Arc] is used through its parametric evaluator
    [arc.point] only. *)
Fixpoint flatten_arc (fuel : nat) (point : float -> complex)
    (tol_dist t0 t1 : float) : run (list complex) :=
  match fuel with
  | O => None
  | S fuel =>
    let p1 := point t0 in
    let p2 := point t1 in
    let tmid := (t0 + t1) / 2 in
    let pmid := point ((t0 + t1) / 2) in
    let pvec := (p2 - p1)%C in
    match (chord <- Cabs (p2 - p1)%C ;;
           fdiv (abs (imag pvec * real pmid - real pvec * imag pmid
                      + real p2 * imag p1 - real p1 * imag p2))
                chord)%result with
    | Raise e => Some (Raise e)
    | Ok dist =>
      if dist <=? tol_dist then ret [pmid]
      else
        (l <- flatten_arc fuel point tol_dist t0 tmid ;;
         r <- flatten_arc fuel point tol_dist tmid t1 ;;
         ret (l ++ r))%run
    end
  end.

(** An object that is none of the four segment classes.  The code reads
    nothing of it but formats it with ['unknown segment: %r' % segment], and
    the operator [%] takes a tuple on its right for the sequence of the
    arguments of the format: of a tuple the [repr]s of its items matter, of
    any other object its own [repr]. *)
Inductive object : Type :=
| Tuple (items : list string)
| NonTuple (repr : string).

(** ['unknown segment: %r' % segment]: the format has one conversion.  A
    tuple of one item supplies that item as the argument, a tuple of any
    other length raises [TypeError], and an object that is not a tuple is
    the argument itself. *)
Definition format_unknown_segment (segment : object) : result string :=
  match segment with
  | NonTuple repr => Ok ("unknown segment: " ++ repr)%string
  | Tuple [repr] => Ok ("unknown segment: " ++ repr)%string
  | Tuple [] => Raise (TypeError "not enough arguments for format string")
  | Tuple (_ :: _ :: _) =>
    Raise (TypeError "not all arguments converted during string formatting")
  end.

(** The objects [segment2polyline] may be handed: the four segment classes
    of svgpathtools with the attributes the code reads, and any other
    object. *)
Inductive segment : Type :=
| Line (start end_ : complex)
| QuadraticBezier (start control end_ : complex)
| CubicBezier (start control1 control2 end_ : complex)
| Arc (start end_ : complex) (point : float -> complex)
| Other (obj : object).

Definition segment2polyline (fuel : nat) (seg : segment)
    (tol_dist tol_angle : float) : run (list complex) :=
  match seg with
  | Line start end_ => ret [start; end_]
  | QuadraticBezier start control end_ =>
    (pts <- flatten3 fuel start control end_ tol_dist tol_angle 0 ;;
     ret ([start] ++ pts ++ [end_]))%run
  | CubicBezier start control1 control2 end_ =>
    (pts <- flatten4 fuel start control1 control2 end_ tol_dist tol_angle 0 ;;
     ret ([start] ++ pts ++ [end_]))%run
  | Arc start end_ point =>
    (pts <- flatten_arc fuel point tol_dist 0 1 ;;
     ret ([start] ++ pts ++ [end_]))%run
  | Other obj =>
    match format_unknown_segment obj with
    | Ok msg => Some (Raise (ValueError msg))
    | Raise e => Some (Raise e)
    end
  end.

End Libm.

(** ** svg2poly.py: assembling and measuring polylines

    The code below raises one more exception, [IndexError]. *)

Inductive error : Type :=
| Raised (e : exn)
| IndexError.

Inductive answer (A : Type) : Type :=
| Value (a : A)
| Error (e : error).

Arguments Value {A} a.
Arguments Error {A} e.

(** [l[0]] and [l[-1]]. *)
Definition item_first {A : Type} (l : list A) : answer A :=
  match l with
  | [] => Error IndexError
  | x :: _ => Value x
  end.

Definition item_last {A : Type} (l : list A) : answer A :=
  match l with
  | [] => Error IndexError
  | x :: l' => Value (last l' x)
  end.

(** The modulus as [cmath] takes it: that of [abs], without the overflow
    check. *)
Definition c_abs (hypot : float -> float -> float) (z : complex) : float :=
  if is_finite (real z) && is_finite (imag z) then hypot (real z) (imag z)
  else if is_infinity (real z) || is_infinity (imag z) then infinity
  else nan.

(** [cmath.isclose(a, b, abs_tol=abs_tol)], the relative tolerance being
    the default [1e-09]. *)
Definition isclose (hypot : float -> float -> float) (a b : complex)
    (abs_tol : float) : bool :=
  let rel_tol := 1e-09 in
  if (real a =? real b) && (imag a =? imag b) then true
  else if is_infinity (real a) || is_infinity (imag a)
          || is_infinity (real b) || is_infinity (imag b) then false
  else
    let diff := c_abs hypot (a - b)%C in
    (diff <=? rel_tol * c_abs hypot b) || (diff <=? rel_tol * c_abs hypot a)
    || (diff <=? abs_tol).

(** [parts[-1].extend(polyseg)]. *)
Definition extend_last (parts : list (list complex)) (polyseg : list complex)
  : list (list complex) :=
  removelast parts ++ [last parts [] ++ polyseg].

(** The first loop of the body of [svg2linesegments], for one path: the
    polylines of consecutive segments are collected into parts, a polyline
    being joined to the part before it when it starts where that part
    ends. *)
Fixpoint path_parts (pow atan2 hypot : float -> float -> float) (fuel : nat)
    (path : list segment) (tol_dist tol_angle : float)
    (parts : list (list complex)) : option (answer (list (list complex))) :=
  match path with
  | [] => Some (Value parts)
  | segment :: path =>
    match segment2polyline pow atan2 hypot fuel segment tol_dist tol_angle with
    | None => None
    | Some (Raise e) => Some (Error (Raised e))
    | Some (Ok polyseg) =>
      match parts with
      | [] => path_parts pow atan2 hypot fuel path tol_dist tol_angle
                (parts ++ [polyseg])
      | _ :: _ =>
        match item_last parts with
        | Error e => Some (Error e)
        | Value part =>
          match item_last part with
          | Error e => Some (Error e)
          | Value a =>
            match item_first polyseg with
            | Error e => Some (Error e)
            | Value b =>
              if isclose hypot a b 1e-10
              then path_parts pow atan2 hypot fuel path tol_dist tol_angle
                     (extend_last parts polyseg)
              else path_parts pow atan2 hypot fuel path tol_dist tol_angle
                     (parts ++ [polyseg])
            end
          end
        end
      end
    end
  end.

(** [min(a, b)] and [max(a, b)] on floats: the second argument wins only
    when it is strictly smaller, respectively strictly larger. *)
Definition py_min (a b : float) : float := if b <? a then b else a.
Definition py_max (a b : float) : float := if a <? b then b else a.

(** The four running extremes of [bounding_box]. *)
Record extent : Type :=
  Extent { minx : float; maxx : float; miny : float; maxy : float }.

Definition extent_point (e : extent) (point : complex) : extent :=
  Extent (py_min (minx e) (real point)) (py_max (maxx e) (real point))
         (py_min (miny e) (imag point)) (py_max (maxy e) (imag point)).

Definition bounding_extent (paths : list (list (list complex))) : extent :=
  fold_left
    (fun e path =>
       fold_left (fun e part => fold_left extent_point part e) path e)
    paths
    (Extent infinity neg_infinity infinity neg_infinity).

(** [x + y*1j] for floats [x] and [y]. *)
Definition rect (x y : float) : complex :=
  (Complex x 0 + Cscale y (Complex 0 1))%C.

Definition bounding_box (paths : list (list (list complex)))
  : complex * complex :=
  let e := bounding_extent paths in
  (rect (minx e) (miny e), rect (maxx e) (maxy e)).

(** ** svg2poly.py: the geometry of a path in output_geojson *)

Definition coordinates : Type := list (float * float).

(** The geometry object built for one path (the dictionary with its
    ["type"] and its ["coordinates"]). *)
Inductive geometry : Type :=
| MultiPolygon (coords : list coordinates)
| Polygon (coords : coordinates)
| MultiLineString (coords : list coordinates)
| LineString (coords : coordinates).

(** [all(cmath.isclose(part[0], part[-1], abs_tol=1e-10) for part in path)]:
    the parts are looked at in order, up to the first one that is not
    closed. *)
Fixpoint all_closed (hypot : float -> float -> float)
    (path : list (list complex)) : answer bool :=
  match path with
  | [] => Value true
  | part :: path =>
    match item_first part with
    | Error e => Error e
    | Value a =>
      match item_last part with
      | Error e => Error e
      | Value b =>
        if isclose hypot a b 1e-10 then all_closed hypot path
        else Value false
      end
    end
  end.

(** The body of the loop of [output_geojson] over the paths ([transform]
    is the identity). *)
Definition path_geometry (hypot : float -> float -> float) (polygon : bool)
    (path : list (list complex)) : answer geometry :=
  let parts := map (map (fun p => (real p, imag p))) path in
  match all_closed hypot path with
  | Error e => Error e
  | Value ispolygon =>
    if polygon && ispolygon then
      if (1 <? List.length parts)%nat then Value (MultiPolygon parts)
      else
        match item_first parts with
        | Error e => Error e
        | Value part => Value (Polygon part)
        end
    else
      if (1 <? List.length parts)%nat then Value (MultiLineString parts)
      else
        match item_first parts with
        | Error e => Error e
        | Value part => Value (LineString part)
        end
  end.

(** ** svg2poly.py: one transform function of parse_transform

    [parse_transform] finds the transform functions of an attribute with a
    regular expression, turns the arguments of each into floats, and
    multiplies a matrix into [mtx] for each.  The last step is modelled:
    the body of the loop once [fn] and [args] are known.  The numpy arrays
    and the functions of [math] are parameters. *)

Section Transform.

(** A 3 by 3 numpy array, [np.array] of three rows, and [@]. *)
Variable matrix : Type.
Variable array : float * float * float -> float * float * float ->
                 float * float * float -> matrix.
Variable matmul : matrix -> matrix -> matrix.

(** [math.cos], [math.sin] and [math.tan]. *)
Variables cos sin tan : float -> float.

(** [math.radians]: the product with the constant [pi / 180]. *)
Definition radians (x : float) : float := x * (pi / 180).

(** [args[i]]. *)
Definition arg (args : list float) (i : nat) : answer float :=
  match nth_error args i with
  | Some x => Value x
  | None => Error IndexError
  end.

Definition bind_answer {A B : Type} (a : answer A) (k : A -> answer B)
  : answer B :=
  match a with
  | Value x => k x
  | Error e => Error e
  end.

(** Whether a number counts as true: it is not zero. *)
Definition truthy (x : float) : bool := negb (x =? 0).

Definition transform_step (mtx : matrix) (fn group0 : string)
    (args : list float) : answer matrix :=
  if String.eqb fn "matrix" then
    bind_answer (arg args 0) (fun a0 =>
    bind_answer (arg args 2) (fun a2 =>
    bind_answer (arg args 4) (fun a4 =>
    bind_answer (arg args 1) (fun a1 =>
    bind_answer (arg args 3) (fun a3 =>
    bind_answer (arg args 5) (fun a5 =>
    Value (matmul mtx (array (a0, a2, a4) (a1, a3, a5) (0, 0, 1)))))))))
  else if String.eqb fn "translate" then
    bind_answer (arg args 0) (fun x =>
    bind_answer (if (1 <? List.length args)%nat then arg args 1 else Value 0)
      (fun y =>
    Value (matmul mtx (array (1, 0, x) (0, 1, y) (0, 0, 1)))))
  else if String.eqb fn "scale" then
    bind_answer (arg args 0) (fun x =>
    bind_answer (if (1 <? List.length args)%nat then arg args 1 else Value x)
      (fun y =>
    Value (matmul mtx (array (x, 0, 0) (0, y, 0) (0, 0, 1)))))
  else if String.eqb fn "rotate" then
    bind_answer (arg args 0) (fun a0 =>
    let r := radians a0 in
    bind_answer
      (if (1 <? List.length args)%nat
       then bind_answer (arg args 1) (fun x =>
            bind_answer (arg args 2) (fun y => Value (x, y)))
       else Value (0, 0))
      (fun xy =>
    let x := fst xy in
    let y := snd xy in
    let mtx :=
      if truthy x && truthy y
      then matmul mtx (array (1, 0, x) (0, 1, y) (0, 0, 1))
      else mtx in
    let mtx :=
      matmul mtx (array (cos r, - sin r, 0) (sin r, cos r, 0) (0, 0, 1)) in
    let mtx :=
      if truthy x && truthy y
      then matmul mtx (array (1, 0, - x) (0, 1, - y) (0, 0, 1))
      else mtx in
    Value mtx))
  else if String.eqb fn "skewX" then
    bind_answer (arg args 0) (fun a0 =>
    let a := radians a0 in
    Value (matmul mtx (array (1, tan a, 0) (0, 1, 0) (0, 0, 1))))
  else if String.eqb fn "skewY" then
    bind_answer (arg args 0) (fun a0 =>
    let a := radians a0 in
    Value (matmul mtx (array (1, 0, 0) (tan a, 1, 0) (0, 0, 1))))
  else
    Error (Raised (ValueError ("unknown transform " ++ group0))).

End Transform.

Import Ascii.

(** ** svg2poly.py: polyline2pathd

    A [str] is a [string] here: its code points lie below 256. *)

(** [c.isspace()], which is what [str.split()] splits at. *)
Definition isspace (c : Ascii.ascii) : bool :=
  let n := Ascii.nat_of_ascii c in
  ((9 <=? n) && (n <=? 13) || (28 <=? n) && (n <=? 32)
   || (n =? 133) || (n =? 160))%nat.

(** [s.replace(old, new)] for a nonempty [old]: the occurrences of [old]
    are replaced from the left, without overlap; [skip] counts the
    characters of an occurrence still to be dropped. *)
Fixpoint replace_from (old new : string) (skip : nat) (s : string) : string :=
  match s with
  | EmptyString => EmptyString
  | String c s' =>
    match skip with
    | S skip => replace_from old new skip s'
    | O =>
      if String.prefix old s
      then (new ++ replace_from old new (String.length old - 1) s')%string
      else String c (replace_from old new 0 s')
    end
  end.

Definition replace (old new s : string) : string := replace_from old new 0 s.

(** [s.split()]: the maximal runs of characters that are not whitespace. *)
Definition push (tok : string) (toks : list string) : list string :=
  match tok with
  | EmptyString => toks
  | String _ _ => tok :: toks
  end.

Fixpoint split_from (s : string) : string * list string :=
  match s with
  | EmptyString => (EmptyString, [])
  | String c s' =>
    let (tok, toks) := split_from s' in
    if isspace c then (EmptyString, push tok toks) else (String c tok, toks)
  end.

Definition split (s : string) : list string :=
  let (tok, toks) := split_from s in push tok toks.

Definition polyline2pathd (polyline_d : string) : answer string :=
  let points := replace ", " "," polyline_d in
  let points := replace " ," "," points in
  let points := split points in
  match points with
  | [] => Error IndexError
  | first :: rest =>
    let closed := String.eqb first (last points first) in
    let d := ("M" ++ replace "," " " first)%string in
    let d := fold_left (fun d p => (d ++ "L" ++ replace "," " " p)%string)
               rest d in
    Value (if closed then (d ++ "z")%string else d)
  end.

(** ** Definitions used in the statements

    Instances of the libm parameters for the examples come first. *)

(** A [pow] for the exponent 2: the rounded product.  libm's [pow(x, 2.0)]
    need not be this value where the square of [x] is not a binary64
    number; it is this value where the square is one, overflows or
    underflows to zero, as in the examples that use this instance. *)
Definition pow_square (x y : float) : float := x * x.

(** A [hypot]: the rounded square root of the sum of the squares. *)
Definition hypot_sqrt (x y : float) : float := sqrt (x * x + y * y).

(** An [atan2] that is right on the four half-axes, zeros being taken as
    [+0] (and [pi / 4] elsewhere), enough to run the angle test on
    axis-parallel legs. *)
Definition atan2_axes (y x : float) : float :=
  if y =? 0 then (if x <? 0 then pi else 0)
  else if x =? 0 then (if y <? 0 then - (pi / 2) else pi / 2)
  else pi / 4.

Definition finite_point (p : complex) : Prop :=
  is_finite (real p) = true /\ is_finite (imag p) = true.

(** The point of the chord from [a] to [b] that [clamped_sq_distance]
    measures to: [a] when the projection parameter is at most 0, [b] when it
    is at least 1, the projection itself otherwise. *)
Definition nearest (u : float) (a b d : complex) : complex :=
  if u <=? 0 then a
  else if 1 <=? u then b
  else (a + Cscale u d)%C.

(** The projection parameter of [p] onto the chord [d] from [p1], as
    [flatten3] computes it ([da] being the squared length of [d]) and as
    [flatten4] computes it ([k] being the inverse of that length). *)
Definition projection3 (p p1 d : complex) (da : float) : float :=
  (real (p - p1)%C * real d + imag (p - p1)%C * imag d) / da.

Definition projection4 (p p1 d : complex) (k : float) : float :=
  k * ((real p - real p1) * real d + (imag p - imag p1) * imag d).

(** The last statement of [flatten3] and of [flatten4]: the two halves of
    the de Casteljau subdivision, one level deeper, concatenated. *)
Definition flatten3_halves (pow atan2 : float -> float -> float) (fuel : nat)
    (p1 p2 p3 : complex) (tol_dist tol_angle : float) (level : Z)
  : run (list complex) :=
  let p12 := ((p1 + p2) / 2)%C in
  let p23 := ((p2 + p3) / 2)%C in
  let p123 := ((p12 + p23) / 2)%C in
  (l <- flatten3 pow atan2 fuel p1 p12 p123 tol_dist tol_angle (level + 1) ;;
   r <- flatten3 pow atan2 fuel p123 p23 p3 tol_dist tol_angle (level + 1) ;;
   ret (l ++ r))%run.

Definition flatten4_halves (pow atan2 : float -> float -> float) (fuel : nat)
    (p1 p2 p3 p4 : complex) (tol_dist tol_angle : float) (level : Z)
  : run (list complex) :=
  let p12 := ((p1 + p2) / 2)%C in
  let p23 := ((p2 + p3) / 2)%C in
  let p34 := ((p3 + p4) / 2)%C in
  let p123 := ((p12 + p23) / 2)%C in
  let p234 := ((p23 + p34) / 2)%C in
  let p1234 := ((p123 + p234) / 2)%C in
  (l <- flatten4 pow atan2 fuel p1 p12 p123 p1234 tol_dist tol_angle (level + 1) ;;
   r <- flatten4 pow atan2 fuel p1234 p234 p34 p4 tol_dist tol_angle (level + 1) ;;
   ret (l ++ r))%run.



Definition segment_start (seg : segment) : complex :=
  match seg with
  | Line start _ | QuadraticBezier start _ _
  | CubicBezier start _ _ _ | Arc start _ _ => start
  | Other _ => Complex nan nan
  end.

Definition segment_end (seg : segment) : complex :=
  match seg with
  | Line _ end_ | QuadraticBezier _ _ end_
  | CubicBezier _ _ _ end_ | Arc _ end_ _ => end_
  | Other _ => Complex nan nan
  end.


(** The curves the recursion of [flatten3] visits: the curve itself and,
    with each curve, the two halves of its de Casteljau subdivision. *)
Inductive subcurve3 (p1 p2 p3 : complex) : complex -> complex -> complex -> Prop :=
| subcurve3_self : subcurve3 p1 p2 p3 p1 p2 p3
| subcurve3_left q1 q2 q3 :
    subcurve3 p1 p2 p3 q1 q2 q3 ->
    subcurve3 p1 p2 p3
      q1 ((q1 + q2) / 2)%C (((q1 + q2) / 2 + (q2 + q3) / 2) / 2)%C
| subcurve3_right q1 q2 q3 :
    subcurve3 p1 p2 p3 q1 q2 q3 ->
    subcurve3 p1 p2 p3
      (((q1 + q2) / 2 + (q2 + q3) / 2) / 2)%C ((q2 + q3) / 2)%C q3.

(** The same for [flatten4]. *)
Inductive subcurve4 (p1 p2 p3 p4 : complex)
  : complex -> complex -> complex -> complex -> Prop :=
| subcurve4_self : subcurve4 p1 p2 p3 p4 p1 p2 p3 p4
| subcurve4_left q1 q2 q3 q4 :
    subcurve4 p1 p2 p3 p4 q1 q2 q3 q4 ->
    let q12 := ((q1 + q2) / 2)%C in
    let q23 := ((q2 + q3) / 2)%C in
    let q34 := ((q3 + q4) / 2)%C in
    let q123 := ((q12 + q23) / 2)%C in
    let q234 := ((q23 + q34) / 2)%C in
    let q1234 := ((q123 + q234) / 2)%C in
    subcurve4 p1 p2 p3 p4 q1 q12 q123 q1234
| subcurve4_right q1 q2 q3 q4 :
    subcurve4 p1 p2 p3 p4 q1 q2 q3 q4 ->
    let q12 := ((q1 + q2) / 2)%C in
    let q23 := ((q2 + q3) / 2)%C in
    let q34 := ((q3 + q4) / 2)%C in
    let q123 := ((q12 + q23) / 2)%C in
    let q234 := ((q23 + q34) / 2)%C in
    let q1234 := ((q123 + q234) / 2)%C in
    subcurve4 p1 p2 p3 p4 q1234 q234 q34 q4.

(** The parameter ranges the recursion of [flatten_arc] visits: the range
    itself and, with each range, its two halves. *)
Inductive subrange (t0 t1 : float) : float -> float -> Prop :=
| subrange_self : subrange t0 t1 t0 t1
| subrange_left a b : subrange t0 t1 a b -> subrange t0 t1 a ((a + b) / 2)
| subrange_right a b : subrange t0 t1 a b -> subrange t0 t1 ((a + b) / 2) b.

(** The remaining depth: a call at [level] nests at most
    [depth_left level] calls, itself included. *)
Definition depth_left (level : Z) : nat :=
  S (Z.to_nat (CURVE_RECURSION_LIMIT + 1 - level)).

(** The points a quadratic may contribute: its control point and its
    de Casteljau midpoint. *)
Definition candidate3 (q1 q2 q3 q : complex) : Prop :=
  q = q2 \/ q = (((q1 + q2) / 2 + (q2 + q3) / 2) / 2)%C.

(** The points a cubic may contribute: its two control points and their
    midpoint. *)
Definition candidate4 (q2 q3 q : complex) : Prop :=
  q = q2 \/ q = q3 \/ q = ((q2 + q3) / 2)%C.

(** The point (5,5). *)
Definition p5 : complex := Complex 5 5.

(** A binary64 value that is not below zero: a zero, a positive number,
    plus infinity, or NaN. *)
Definition not_below_zero (f : spec_float) : Prop :=
  match f with
  | S754_infinity s | S754_finite s _ _ => s = false
  | S754_zero _ | S754_nan => True
  end.

(** A point whose coordinates are numbers (not NaN). *)
Definition number_point (p : complex) : Prop :=
  is_nan (real p) = false /\ is_nan (imag p) = false.

(** A path whose every segment starts exactly where the one before it
    ends. *)
Fixpoint continuous (path : list segment) : Prop :=
  match path with
  | [] => True
  | seg :: rest =>
    match rest with
    | [] => True
    | next :: _ =>
      segment_end seg = segment_start next /\ number_point (segment_end seg)
    end /\ continuous rest
  end.

(** The parts collected so far: none, or a list whose parts are all
    nonempty. *)
Definition parts_ok (parts : list (list complex)) : Prop :=
  Forall (fun part => part <> []) parts.

(** The point [p] lies within the extent [e]: none of its coordinates is
    below the minimum or above the maximum. *)
Definition covers (e : extent) (p : complex) : Prop :=
  (real p <? minx e) = false /\ (maxx e <? real p) = false /\
  (imag p <? miny e) = false /\ (maxy e <? imag p) = false.

(** A string of whitespace only (the empty string included). *)
Fixpoint blank (s : string) : bool :=
  match s with
  | EmptyString => true
  | String c s' => isspace c && blank s'
  end.

(** A string in which the character [x] does not occur. *)
Fixpoint free_of (x : Ascii.ascii) (s : string) : bool :=
  match s with
  | EmptyString => true
  | String c s' => negb (Ascii.eqb c x) && free_of x s'
  end.

(** A string without whitespace. *)
Fixpoint solid (s : string) : bool :=
  match s with
  | EmptyString => true
  | String c s' => negb (isspace c) && solid s'
  end.

Definition first_char (s : string) : option ascii :=
  match s with
  | EmptyString => None
  | String c _ => Some c
  end.

Fixpoint last_char (s : string) : option ascii :=
  match s with
  | EmptyString => None
  | String c s' =>
    match s' with
    | EmptyString => Some c
    | String _ _ => last_char s'
    end
  end.

(** A point of a [points] attribute as it is meant to be written: a
    nonempty string without whitespace, with commas inside only (as in
    ["10,20"]). *)
Definition point_token (t : string) : Prop :=
  t <> EmptyString /\ solid t = true /\
  first_char t <> Some ","%char /\ last_char t <> Some ","%char.

(** [' '.join(tokens)]. *)
Fixpoint join_spaces (tokens : list string) : string :=
  match tokens with
  | [] => EmptyString
  | t :: rest =>
    match rest with
    | [] => t
    | _ :: _ => (t ++ " " ++ join_spaces rest)%string
    end
  end.

(** The [L] commands of the points after the first. *)
Fixpoint line_commands (points : list string) : string :=
  match points with
  | [] => EmptyString
  | p :: points => ("L" ++ replace "," " " p ++ line_commands points)%string
  end.

(** The pair of characters [a], [b] occurs in [s]. *)
Fixpoint occurs_pair (a b : ascii) (s : string) : bool :=
  match s with
  | EmptyString => false
  | String c s' =>
    (Ascii.eqb c a
     && match first_char s' with
        | Some d => Ascii.eqb d b
        | None => false
        end)
    || occurs_pair a b s'
  end.

(** Instances of the parameters of [transform_step] for the examples: a
    matrix is its three rows, the product is the sum of the products along
    each row and column, and the trigonometric functions are right at 0
    (and NaN elsewhere; [sin_at_0] is the tangent as well). *)
Definition row : Type := float * float * float.
Definition matrix3 : Type := row * row * row.

Definition array3 (a b c : row) : matrix3 := (a, b, c).

Definition dot (a : row) (x y z : float) : float :=
  let '(a0, a1, a2) := a in a0 * x + a1 * y + a2 * z.

Definition matmul3 (m n : matrix3) : matrix3 :=
  let '(a, b, c) := m in
  let '((n00, n01, n02), (n10, n11, n12), (n20, n21, n22)) := n in
  let line (r : row) : row :=
    (dot r n00 n10 n20, dot r n01 n11 n21, dot r n02 n12 n22) in
  (line a, line b, line c).

Definition eye3 : matrix3 := ((1, 0, 0), (0, 1, 0), (0, 0, 1)).

Definition cos_at_0 (x : float) : float := if x =? 0 then 1 else nan.
Definition sin_at_0 (x : float) : float := if x =? 0 then 0 else nan.

(** * Properties *)

(** ** Facts of binary64 arithmetic *)

Lemma is_finite_cases (x : float) :
  is_finite x = true ->
  (exists s, Prim2SF x = S754_zero s) \/
  (exists s m e, Prim2SF x = S754_finite s m e).
Proof.
  unfold is_finite, is_nan, is_infinity. intros H.
  apply negb_true_iff, orb_false_iff in H. destruct H as [Hnan Hinf].
  apply negb_false_iff in Hnan.
  rewrite FloatAxioms.eqb_spec in Hnan.
  rewrite FloatAxioms.eqb_spec, abs_spec in Hinf.
  destruct (Prim2SF x) as [s | s | | s m e].
  - left; eauto.
  - discriminate Hinf.
  - discriminate Hnan.
  - right; eauto.
Qed.

Lemma sub_diag_finite (x : float) : is_finite x = true -> x - x = 0.
Proof.
  intros Hx. apply Prim2SF_inj. rewrite sub_spec.
  destruct (is_finite_cases x Hx) as [[s ->] | [s [m [e ->]]]].
  - destruct s; reflexivity.
  - unfold SF64sub, SFsub. rewrite Z.sub_diag. reflexivity.
Qed.

Lemma leb_nan_l (x : float) : (nan <=? x) = false.
Proof. rewrite leb_spec. reflexivity. Qed.

Lemma Csub_diag_finite (p : complex) :
  finite_point p -> (p - p)%C = Complex 0 0.
Proof.
  intros [Hr Hi]. unfold Csub.
  rewrite (sub_diag_finite _ Hr), (sub_diag_finite _ Hi). reflexivity.
Qed.

(** ** Unfolding equations *)

Lemma flatten_arc_S hypot fuel point tol_dist t0 t1 :
  flatten_arc hypot (S fuel) point tol_dist t0 t1 =
  let p1 := point t0 in
  let p2 := point t1 in
  let tmid := (t0 + t1) / 2 in
  let pmid := point ((t0 + t1) / 2) in
  let pvec := (p2 - p1)%C in
  match (chord <- Cabs hypot (p2 - p1)%C ;;
         fdiv (abs (imag pvec * real pmid - real pvec * imag pmid
                    + real p2 * imag p1 - real p1 * imag p2))
              chord)%result with
  | Raise e => Some (Raise e)
  | Ok dist =>
    if dist <=? tol_dist then ret [pmid]
    else
      (l <- flatten_arc hypot fuel point tol_dist t0 tmid ;;
       r <- flatten_arc hypot fuel point tol_dist tmid t1 ;;
       ret (l ++ r))%run
  end.
Proof. reflexivity. Qed.

(** ** The arc flattener *)

Lemma Cabs_zero hypot : hypot 0 0 = 0 -> Cabs hypot (Complex 0 0) = Ok 0.
Proof. intros H. unfold Cabs. cbn. rewrite H. reflexivity. Qed.

Lemma flatten_arc_zero_chord hypot fuel point tol_dist t0 t1 :
  hypot 0 0 = 0 ->
  point t0 = point t1 ->
  finite_point (point t0) ->
  flatten_arc hypot (S fuel) point tol_dist t0 t1 = Some (Raise ZeroDivisionError).
Proof.
  intros Hh Heq Hfin. rewrite flatten_arc_S. cbv zeta.
  rewrite <- Heq, (Csub_diag_finite _ Hfin), (Cabs_zero _ Hh).
  reflexivity.
Qed.

Lemma flatten_arc_nan hypot fuel tol_dist t0 t1 :
  flatten_arc hypot fuel (fun _ => Complex nan nan) tol_dist t0 t1 = None.
Proof.
  revert t0 t1. induction fuel as [| fuel IH]; intros t0 t1; [reflexivity |].
  rewrite flatten_arc_S. cbn. rewrite leb_nan_l, !IH. reflexivity.
Qed.

(** An evaluator that is constant at the point [(inf, 0)]: the chord
    [p2 - p1] is [(inf - inf, 0 - 0) = (nan, 0)], its modulus is NaN, which
    is not zero, the quotient is NaN, the test [dist <= tol_dist] fails and
    the call bisects; so does every call it makes. *)
Lemma flatten_arc_infinite hypot fuel tol_dist t0 t1 :
  flatten_arc hypot fuel (fun _ => Complex infinity 0) tol_dist t0 t1 = None.
Proof.
  revert t0 t1. induction fuel as [| fuel IH]; intros t0 t1; [reflexivity |].
  rewrite flatten_arc_S. cbn. rewrite leb_nan_l, !IH. reflexivity.
Qed.

(** ** The Bezier flatteners: unfolding and termination *)

Lemma flatten3_S pow atan2 fuel p1 p2 p3 tol_dist tol_angle level :
  flatten3 pow atan2 (S fuel) p1 p2 p3 tol_dist tol_angle level =
  if (CURVE_RECURSION_LIMIT <? level)%Z then ret []
  else
    match flatten3_stop pow atan2 p1 p2 p3 tol_dist tol_angle with
    | Raise e => Some (Raise e)
    | Ok (Return pts) => ret pts
    | Ok Subdivide =>
      let p12 := ((p1 + p2) / 2)%C in
      let p23 := ((p2 + p3) / 2)%C in
      let p123 := ((p12 + p23) / 2)%C in
      (l <- flatten3 pow atan2 fuel p1 p12 p123 tol_dist tol_angle (level + 1) ;;
       r <- flatten3 pow atan2 fuel p123 p23 p3 tol_dist tol_angle (level + 1) ;;
       ret (l ++ r))%run
    end.
Proof. reflexivity. Qed.

Lemma flatten4_S pow atan2 fuel p1 p2 p3 p4 tol_dist tol_angle level :
  flatten4 pow atan2 (S fuel) p1 p2 p3 p4 tol_dist tol_angle level =
  if (CURVE_RECURSION_LIMIT <? level)%Z then ret []
  else
    match flatten4_stop pow atan2 p1 p2 p3 p4 tol_dist tol_angle with
    | Raise e => Some (Raise e)
    | Ok (Return pts) => ret pts
    | Ok Subdivide =>
      let p12 := ((p1 + p2) / 2)%C in
      let p23 := ((p2 + p3) / 2)%C in
      let p34 := ((p3 + p4) / 2)%C in
      let p123 := ((p12 + p23) / 2)%C in
      let p234 := ((p23 + p34) / 2)%C in
      let p1234 := ((p123 + p234) / 2)%C in
      (l <- flatten4 pow atan2 fuel p1 p12 p123 p1234 tol_dist tol_angle (level + 1) ;;
       r <- flatten4 pow atan2 fuel p1234 p234 p34 p4 tol_dist tol_angle (level + 1) ;;
       ret (l ++ r))%run
    end.
Proof. reflexivity. Qed.

Lemma flatten4_calls_S pow atan2 fuel p1 p2 p3 p4 tol_dist tol_angle level :
  flatten4_calls pow atan2 (S fuel) p1 p2 p3 p4 tol_dist tol_angle level =
  if (CURVE_RECURSION_LIMIT <? level)%Z then ret 1%N
  else
    match flatten4_stop pow atan2 p1 p2 p3 p4 tol_dist tol_angle with
    | Raise e => Some (Raise e)
    | Ok (Return _) => ret 1%N
    | Ok Subdivide =>
      let p12 := ((p1 + p2) / 2)%C in
      let p23 := ((p2 + p3) / 2)%C in
      let p34 := ((p3 + p4) / 2)%C in
      let p123 := ((p12 + p23) / 2)%C in
      let p234 := ((p23 + p34) / 2)%C in
      let p1234 := ((p123 + p234) / 2)%C in
      (l <- flatten4_calls pow atan2 fuel p1 p12 p123 p1234
              tol_dist tol_angle (level + 1) ;;
       r <- flatten4_calls pow atan2 fuel p1234 p234 p34 p4
              tol_dist tol_angle (level + 1) ;;
       ret (1 + l + r)%N)%run
    end.
Proof. reflexivity. Qed.

Lemma level_within (level : Z) :
  (level <= CURVE_RECURSION_LIMIT)%Z -> (CURVE_RECURSION_LIMIT <? level)%Z = false.
Proof. intros H. apply Z.ltb_ge. exact H. Qed.

Lemma level_beyond (level : Z) :
  (CURVE_RECURSION_LIMIT < level)%Z -> (CURVE_RECURSION_LIMIT <? level)%Z = true.
Proof. intros H. apply Z.ltb_lt. exact H. Qed.

Lemma flatten3_beyond_limit pow atan2 fuel p1 p2 p3 tol_dist tol_angle level :
  (CURVE_RECURSION_LIMIT < level)%Z ->
  flatten3 pow atan2 (S fuel) p1 p2 p3 tol_dist tol_angle level = Some (Ok []).
Proof. intros H. rewrite flatten3_S, (level_beyond _ H). reflexivity. Qed.

Lemma flatten4_beyond_limit pow atan2 fuel p1 p2 p3 p4 tol_dist tol_angle level :
  (CURVE_RECURSION_LIMIT < level)%Z ->
  flatten4 pow atan2 (S fuel) p1 p2 p3 p4 tol_dist tol_angle level = Some (Ok []).
Proof. intros H. rewrite flatten4_S, (level_beyond _ H). reflexivity. Qed.

Lemma depth_left_step (level : Z) (fuel : nat) :
  (level <= CURVE_RECURSION_LIMIT)%Z ->
  (depth_left level <= S fuel)%nat ->
  (depth_left (level + 1) <= fuel)%nat.
Proof. unfold depth_left, CURVE_RECURSION_LIMIT. lia. Qed.

Lemma flatten3_total pow atan2 fuel :
  forall p1 p2 p3 tol_dist tol_angle level,
    (depth_left level <= fuel)%nat ->
    exists r, flatten3 pow atan2 fuel p1 p2 p3 tol_dist tol_angle level = Some r.
Proof.
  induction fuel as [| fuel IH]; intros p1 p2 p3 tol_dist tol_angle level Hfuel.
  - unfold depth_left in Hfuel. lia.
  - rewrite flatten3_S.
    destruct (CURVE_RECURSION_LIMIT <? level)%Z eqn:Hlevel; [eexists; reflexivity |].
    apply Z.ltb_ge in Hlevel.
    destruct (flatten3_stop pow atan2 p1 p2 p3 tol_dist tol_angle) as [[pts |] | e];
      try (eexists; reflexivity).
    cbv zeta.
    pose proof (depth_left_step _ _ Hlevel Hfuel) as Hnext.
    destruct (IH p1 ((p1 + p2) / 2)%C (((p1 + p2) / 2 + (p2 + p3) / 2) / 2)%C
                 tol_dist tol_angle (level + 1)%Z Hnext) as [[l | e] ->];
      [| eexists; reflexivity].
    destruct (IH (((p1 + p2) / 2 + (p2 + p3) / 2) / 2)%C ((p2 + p3) / 2)%C p3
                 tol_dist tol_angle (level + 1)%Z Hnext) as [[r | e] ->];
      eexists; reflexivity.
Qed.

Lemma flatten4_total pow atan2 fuel :
  forall p1 p2 p3 p4 tol_dist tol_angle level,
    (depth_left level <= fuel)%nat ->
    exists r, flatten4 pow atan2 fuel p1 p2 p3 p4 tol_dist tol_angle level = Some r.
Proof.
  induction fuel as [| fuel IH];
    intros p1 p2 p3 p4 tol_dist tol_angle level Hfuel.
  - unfold depth_left in Hfuel. lia.
  - rewrite flatten4_S.
    destruct (CURVE_RECURSION_LIMIT <? level)%Z eqn:Hlevel; [eexists; reflexivity |].
    apply Z.ltb_ge in Hlevel.
    destruct (flatten4_stop pow atan2 p1 p2 p3 p4 tol_dist tol_angle) as [[pts |] | e];
      try (eexists; reflexivity).
    cbv zeta.
    pose proof (depth_left_step _ _ Hlevel Hfuel) as Hnext.
    match goal with
    | |- context [bind_run (flatten4 _ _ _ ?a ?b ?c ?d _ _ _) _] =>
      destruct (IH a b c d tol_dist tol_angle (level + 1)%Z Hnext) as [[l | e] ->];
        [| eexists; reflexivity]
    end.
    cbn [bind_run].
    match goal with
    | |- context [bind_run (flatten4 _ _ _ ?a ?b ?c ?d _ _ _) _] =>
      destruct (IH a b c d tol_dist tol_angle (level + 1)%Z Hnext) as [[r | e] ->];
        eexists; reflexivity
    end.
Qed.

(** C8: a call of [flatten3] or [flatten4] whose level exceeds the
    recursion limit of 32 returns the empty list at once, without an
    error; hence from any starting level the nesting of calls is bounded
    (by [depth_left level]) and both functions terminate on every input. *)
Theorem flatten_recursion_limit pow atan2 p1 p2 p3 p4 tol_dist tol_angle level fuel :
  ((CURVE_RECURSION_LIMIT < level)%Z ->
   flatten3 pow atan2 (S fuel) p1 p2 p3 tol_dist tol_angle level = Some (Ok []) /\
   flatten4 pow atan2 (S fuel) p1 p2 p3 p4 tol_dist tol_angle level = Some (Ok []))
  /\ (exists r, flatten3 pow atan2 (depth_left level + fuel)
                  p1 p2 p3 tol_dist tol_angle level = Some r)
  /\ (exists r, flatten4 pow atan2 (depth_left level + fuel)
                  p1 p2 p3 p4 tol_dist tol_angle level = Some r).
Proof.
  split; [| split].
  - intros H. split.
    + apply flatten3_beyond_limit, H.
    + apply flatten4_beyond_limit, H.
  - apply flatten3_total. lia.
  - apply flatten4_total. lia.
Qed.

Lemma flatten_recursion_limit_witness :
  (CURVE_RECURSION_LIMIT < 33)%Z /\
  flatten3 pow_square atan2_axes 1 (Complex 0 0) (Complex 1 1) (Complex 2 0) 1 0 33
    = Some (Ok []) /\
  flatten4 pow_square atan2_axes 1 (Complex 0 0) (Complex 1 1) (Complex 2 0) (Complex 3 0)
    1 0 33 = Some (Ok []).
Proof.
  assert (H : (CURVE_RECURSION_LIMIT < 33)%Z) by reflexivity.
  split; [exact H |].
  exact (proj1 (flatten_recursion_limit pow_square atan2_axes
                  (Complex 0 0) (Complex 1 1) (Complex 2 0) (Complex 3 0)
                  1 0 33%Z 0%nat) H).
Defined.

(** ** The exception of a square *)

Lemma pow2_raise pow x e : pow2 pow x = Raise e -> e = OverflowError.
Proof.
  unfold pow2. cbv zeta.
  destruct (is_nan x); [discriminate |].
  destruct (is_infinity x); [discriminate |].
  destruct (x =? 0); [discriminate |].
  destruct (_ =? 1); [discriminate |].
  destruct (is_infinity _); congruence.
Qed.

Lemma sq_norm_raise pow d e : sq_norm pow d = Raise e -> e = OverflowError.
Proof.
  unfold sq_norm.
  destruct (pow2 pow (real d)) as [a | e1] eqn:Ha; cbn [bind].
  - destruct (pow2 pow (imag d)) as [b | e2] eqn:Hb; cbn [bind]; [discriminate |].
    intros [= <-]. exact (pow2_raise _ _ _ Hb).
  - intros [= <-]. exact (pow2_raise _ _ _ Ha).
Qed.

Lemma point_sq_distance_raise pow p q e :
  point_sq_distance pow p q = Raise e -> e = OverflowError.
Proof. apply sq_norm_raise. Qed.

(** ** The quadratic flattener: where it stops *)



(** The angle test at work: a right-angled quadratic whose legs lie on the
    axes turns by [pi / 2], which is below a [tol_angle] of 2. *)
Example flatten3_regular_stop_by_angle :
  flatten3 pow_square atan2_axes 1 (Complex 0 0) (Complex 1 0) (Complex 1 1) 1 2 0
  = Some (Ok [Complex 0.75 0.25]).
Proof. reflexivity. Qed.

(** ** What a call within the limit returns, given the verdict *)

Lemma flatten3_of_stop pow atan2 fuel p1 p2 p3 tol_dist tol_angle level v :
  (level <= CURVE_RECURSION_LIMIT)%Z ->
  flatten3_stop pow atan2 p1 p2 p3 tol_dist tol_angle = Ok v ->
  flatten3 pow atan2 (S fuel) p1 p2 p3 tol_dist tol_angle level =
  match v with
  | Return pts => Some (Ok pts)
  | Subdivide => flatten3_halves pow atan2 fuel p1 p2 p3 tol_dist tol_angle level
  end.
Proof.
  intros Hlevel Hstop. rewrite flatten3_S, (level_within _ Hlevel), Hstop.
  destruct v; reflexivity.
Qed.

Lemma flatten4_of_stop pow atan2 fuel p1 p2 p3 p4 tol_dist tol_angle level v :
  (level <= CURVE_RECURSION_LIMIT)%Z ->
  flatten4_stop pow atan2 p1 p2 p3 p4 tol_dist tol_angle = Ok v ->
  flatten4 pow atan2 (S fuel) p1 p2 p3 p4 tol_dist tol_angle level =
  match v with
  | Return pts => Some (Ok pts)
  | Subdivide => flatten4_halves pow atan2 fuel p1 p2 p3 p4 tol_dist tol_angle level
  end.
Proof.
  intros Hlevel Hstop. rewrite flatten4_S, (level_within _ Hlevel), Hstop.
  destruct v; reflexivity.
Qed.

Lemma clamped_sq_distance_nearest pow u p a b d :
  clamped_sq_distance pow u p a b d = point_sq_distance pow p (nearest u a b d).
Proof.
  unfold clamped_sq_distance, nearest.
  destruct (u <=? 0); [reflexivity |]. destruct (1 <=? u); reflexivity.
Qed.

(** ** Collinear control points *)

Lemma flatten3_stop_collinear_inside pow atan2 p1 p2 p3 tol_dist tol_angle da :
  let d := (p3 - p1)%C in
  (CURVE_COLLINEARITY_EPSILON <? cross p2 p3 d) = false ->
  sq_norm pow d = Ok da ->
  (da =? 0) = false ->
  (0 <? projection3 p2 p1 d da) = true ->
  (projection3 p2 p1 d da <? 1) = true ->
  flatten3_stop pow atan2 p1 p2 p3 tol_dist tol_angle = Ok (Return []).
Proof.
  intros d Hdist Hda Hnz Hlo Hhi.
  unfold flatten3_stop. cbv zeta. fold d.
  rewrite Hdist, Hda. cbn [bind]. rewrite Hnz.
  unfold fdiv. rewrite Hnz. cbn [bind].
  fold (projection3 p2 p1 d da). rewrite Hlo, Hhi. reflexivity.
Qed.

(** The case split of [flatten4]: the code of the case in terms of the two
    significance tests. *)
Lemma flatten4_case_code (s2 s3 : bool) :
  (Z.shiftl (Z.b2z s2) 1 + Z.b2z s3)%Z =
  match s2, s3 with
  | false, false => 0
  | false, true => 1
  | true, false => 2
  | true, true => 3
  end%Z.
Proof. destruct s2, s3; reflexivity. Qed.

Lemma flatten4_stop_case0 pow atan2 p1 p2 p3 p4 tol_dist tol_angle k :
  let d := (p4 - p1)%C in
  (CURVE_COLLINEARITY_EPSILON <? cross p2 p4 d) = false ->
  (CURVE_COLLINEARITY_EPSILON <? cross p3 p4 d) = false ->
  sq_norm pow d = Ok k ->
  (k =? 0) = false ->
  let u2 := projection4 p2 p1 d (1 / k) in
  let u3 := projection4 p3 p1 d (1 / k) in
  flatten4_stop pow atan2 p1 p2 p3 p4 tol_dist tol_angle =
  if (0 <? u2) && (u2 <? 1) && ((0 <? u3) && (u3 <? 1)) then Ok (Return [])
  else
    (D2 <- point_sq_distance pow p2 (nearest u2 p1 p4 d) ;;
     D3 <- point_sq_distance pow p3 (nearest u3 p1 p4 d) ;;
     Ok (governing D2 D3 (tol_dist * tol_dist) p2 p3))%result.
Proof.
  intros d Hd2 Hd3 Hk Hnz u2 u3.
  unfold flatten4_stop. cbv zeta. fold d.
  rewrite flatten4_case_code, Hd2, Hd3. cbn [Z.eqb].
  rewrite Hk. cbn [bind]. rewrite Hnz.
  unfold fdiv. rewrite Hnz. cbn [bind].
  fold (projection4 p2 p1 d (1 / k)). fold (projection4 p3 p1 d (1 / k)).
  fold u2. fold u3.
  rewrite !clamped_sq_distance_nearest. reflexivity.
Qed.

(** The quadratic with the control points [(0, 0)], [(0.025, 0.075)] and
    [(0.1, 0.3)]: the middle one is a quarter of the last one, exactly, yet
    the deviation that the code computes is 3.47e-18, above
    [CURVE_COLLINEARITY_EPSILON], and the call returns the midpoint [p123]
    by the regular case.  The squares are those of glibc, which are the
    rounded ones. *)
Lemma quarter_point_not_collinear pow atan2 fuel :
  pow 0.1 2 = 0.010000000000000002 ->
  pow 0.3 2 = 0.09 ->
  flatten3 pow atan2 (S fuel)
    (Complex 0 0) (Complex 0.025 0.075) (Complex 0.1 0.3) 1 0 0
  = Some (Ok [Complex 0.0375 0.1125]).
Proof.
  intros H1 H3. rewrite flatten3_S.
  unfold flatten3_stop, sq_norm, pow2. cbn. rewrite H1, H3. reflexivity.
Qed.

(** Three collinear points 1e200 apart: the deviation is zero, and the
    square of the chord length overflows. *)
Lemma collinear_quadratic_overflow pow atan2 fuel :
  pow 2e200 2 = infinity ->
  flatten3 pow atan2 (S fuel)
    (Complex 0 0) (Complex 1e200 0) (Complex 2e200 0) 1 0 0
  = Some (Raise OverflowError).
Proof.
  intros H. rewrite flatten3_S.
  unfold flatten3_stop, sq_norm, pow2. cbn. rewrite H. reflexivity.
Qed.

(** C7, counterexample: exactly collinear control points with the middle
    one projecting strictly inside the chord, for which [flatten3] does not
    return the empty list.  The point [(0.025, 0.075)] is a quarter of
    [(0.1, 0.3)], but the cross product that the code computes is not zero
    and the call returns [p123]; and for the points [(0, 0)], [(1e200, 0)],
    [(2e200, 0)] the call raises [OverflowError].  What the two calls
    need of libm's [pow] is stated: the squares of 0.1 and 0.3 as glibc
    returns them, which are the rounded ones, and the overflow of a
    square to [inf]. *)
Lemma collinear_points_not_collapsed :
  Complex 0.025 0.075 = Complex (0.1 / 4) (0.3 / 4)
  /\
  ~ (exists pow atan2 fuel,
        pow 0.1 2 = 0.010000000000000002 /\
        pow 0.3 2 = 0.09 /\
        flatten3 pow atan2 (S fuel)
          (Complex 0 0) (Complex 0.025 0.075) (Complex 0.1 0.3) 1 0 0
        = Some (Ok []))
  /\
  ~ (exists pow atan2 fuel,
        pow 2e200 2 = infinity /\
        flatten3 pow atan2 (S fuel)
          (Complex 0 0) (Complex 1e200 0) (Complex 2e200 0) 1 0 0
        = Some (Ok [])).
Proof.
  split; [reflexivity | split].
  - intros (pow & atan2 & fuel & H1 & H3 & H).
    rewrite (quarter_point_not_collinear pow atan2 fuel H1 H3) in H. discriminate H.
  - intros (pow & atan2 & fuel & Hinf & H).
    rewrite (collinear_quadratic_overflow pow atan2 fuel Hinf) in H. discriminate H.
Qed.

(** The rounded product is a [pow] as the counterexample asks for. *)
Example quarter_point_midpoint :
  flatten3 pow_square atan2_axes 1
    (Complex 0 0) (Complex 0.025 0.075) (Complex 0.1 0.3) 1 0 0
  = Some (Ok [Complex 0.0375 0.1125])
  /\
  flatten3 pow_square atan2_axes 1
    (Complex 0 0) (Complex 1e200 0) (Complex 2e200 0) 1 0 0
  = Some (Raise OverflowError).
Proof.
  split.
  - apply quarter_point_not_collinear; reflexivity.
  - apply collinear_quadratic_overflow; reflexivity.
Qed.

(** C7, amended: control points that are collinear for the code (the
    cross products it computes are zero), with a chord whose squared length
    [d.real**2 + d.imag**2] is computed without [OverflowError] and is not
    zero, and whose interior control points project strictly inside the
    chord (the projection parameters being the ones the code computes), are
    flattened to an empty interior: [flatten3] when the projection
    parameter of [p2] is strictly between 0 and 1, [flatten4] when those of
    [p2] and [p3] both are. *)
Theorem collinear_collapse pow atan2 fuel p1 p2 p3 p4 tol_dist tol_angle level :
  (level <= CURVE_RECURSION_LIMIT)%Z ->
  (forall da,
      let d := (p3 - p1)%C in
      cross p2 p3 d = 0 ->
      sq_norm pow d = Ok da ->
      (da =? 0) = false ->
      (0 <? projection3 p2 p1 d da) = true ->
      (projection3 p2 p1 d da <? 1) = true ->
      flatten3 pow atan2 (S fuel) p1 p2 p3 tol_dist tol_angle level = Some (Ok []))
  /\
  (forall k,
      let d := (p4 - p1)%C in
      cross p2 p4 d = 0 ->
      cross p3 p4 d = 0 ->
      sq_norm pow d = Ok k ->
      (k =? 0) = false ->
      let u2 := projection4 p2 p1 d (1 / k) in
      let u3 := projection4 p3 p1 d (1 / k) in
      (0 <? u2) = true -> (u2 <? 1) = true ->
      (0 <? u3) = true -> (u3 <? 1) = true ->
      flatten4 pow atan2 (S fuel) p1 p2 p3 p4 tol_dist tol_angle level
      = Some (Ok [])).
Proof.
  intros Hlevel. split.
  - intros da d Hdist Hda Hnz Hlo Hhi.
    rewrite (flatten3_of_stop _ _ _ _ _ _ _ _ _ (Return []) Hlevel); [reflexivity |].
    apply (flatten3_stop_collinear_inside _ _ _ _ _ _ _ da); try assumption.
    fold d. rewrite Hdist. reflexivity.
  - intros k d Hd2 Hd3 Hk Hnz u2 u3 H2lo H2hi H3lo H3hi.
    rewrite (flatten4_of_stop _ _ _ _ _ _ _ _ _ _ (Return []) Hlevel); [reflexivity |].
    rewrite (flatten4_stop_case0 _ _ _ _ _ _ _ _ k); try assumption.
    + fold d. fold u2. fold u3. rewrite H2lo, H2hi, H3lo, H3hi. reflexivity.
    + fold d. rewrite Hd2. reflexivity.
    + fold d. rewrite Hd3. reflexivity.
Qed.

Lemma collinear_collapse_witness :
  flatten3 pow_square atan2_axes 1 (Complex 0 0) (Complex 1 0) (Complex 2 0) 1 0 0
  = Some (Ok []).
Proof.
  refine (proj1 (collinear_collapse pow_square atan2_axes 0 (Complex 0 0) (Complex 1 0)
                   (Complex 2 0) (Complex 3 0) 1 0 0%Z _) 4 _ _ _ _ _).
  - unfold CURVE_RECURSION_LIMIT. lia.
  - reflexivity.
  - reflexivity.
  - reflexivity.
  - reflexivity.
  - reflexivity.
Defined.

Example collinear_cubic_collapses :
  flatten4 pow_square atan2_axes 1 (Complex 0 0) (Complex 1 0) (Complex 2 0) (Complex 3 0)
    1 0 0 = Some (Ok []).
Proof. reflexivity. Qed.

(** ** The cubic flattener: case 0 *)

(** Four collinear points up to 2e200 apart: both deviations are zero,
    and the square of the chord length overflows. *)
Lemma collinear_cubic_overflow pow atan2 fuel :
  pow 2e200 2 = infinity ->
  flatten4 pow atan2 (S fuel)
    (Complex 0 0) (Complex 1e200 0) (Complex 1e200 0) (Complex 2e200 0) 1 0 0
  = Some (Raise OverflowError).
Proof.
  intros H. rewrite flatten4_S.
  unfold flatten4_stop, sq_norm, pow2. cbn. rewrite H. reflexivity.
Qed.

(** Four collinear points up to 1e-170 apart: the chord is not zero, but
    its squared length underflows to zero, and so do the squared distances
    of the zero-chord branch that the call then takes. *)
Lemma collinear_cubic_underflow pow atan2 fuel :
  pow 1e-170 2 = 0 ->
  pow 5e-171 2 = 0 ->
  flatten4 pow atan2 (S fuel)
    (Complex 0 0) (Complex 5e-171 0) (Complex 5e-171 0) (Complex 1e-170 0)
    1 0 0
  = Some (Ok [Complex 5e-171 0]).
Proof.
  intros H1 H2. rewrite flatten4_S.
  unfold flatten4_stop, point_sq_distance, sq_norm, pow2. cbn.
  rewrite H1. cbn. rewrite H2. reflexivity.
Qed.

(** C4, counterexample: case 0 of [flatten4] with a chord that is not zero
    and both [p2] and [p3] at its middle, for which the call does not
    return the empty list.  With the chord from [(0, 0)] to [(2e200, 0)]
    the square of its length overflows and the call raises
    [OverflowError]; with the chord from [(0, 0)] to [(1e-170, 0)] the
    square underflows to zero, the branch for a zero chord is taken and the
    call returns [[p3]].  What the two calls need of libm's [pow] is
    stated: the overflow of a square to [inf] and the underflow of a
    square to zero. *)
Lemma case0_chord_square_out_of_range :
  ~ (exists pow atan2 fuel,
        pow 2e200 2 = infinity /\
        flatten4 pow atan2 (S fuel)
          (Complex 0 0) (Complex 1e200 0) (Complex 1e200 0) (Complex 2e200 0)
          1 0 0
        = Some (Ok []))
  /\
  ~ (exists pow atan2 fuel,
        pow 1e-170 2 = 0 /\
        pow 5e-171 2 = 0 /\
        flatten4 pow atan2 (S fuel)
          (Complex 0 0) (Complex 5e-171 0) (Complex 5e-171 0)
          (Complex 1e-170 0) 1 0 0
        = Some (Ok [])).
Proof.
  split.
  - intros (pow & atan2 & fuel & Hinf & H).
    rewrite (collinear_cubic_overflow pow atan2 fuel Hinf) in H. discriminate H.
  - intros (pow & atan2 & fuel & H1 & H2 & H).
    rewrite (collinear_cubic_underflow pow atan2 fuel H1 H2) in H.
    discriminate H.
Qed.

(** The rounded product is a [pow] as the counterexample asks for. *)
Example collinear_cubic_out_of_range :
  flatten4 pow_square atan2_axes 1
    (Complex 0 0) (Complex 1e200 0) (Complex 1e200 0) (Complex 2e200 0) 1 0 0
  = Some (Raise OverflowError)
  /\
  flatten4 pow_square atan2_axes 1
    (Complex 0 0) (Complex 5e-171 0) (Complex 5e-171 0) (Complex 1e-170 0)
    1 0 0
  = Some (Ok [Complex 5e-171 0]).
Proof.
  split.
  - apply collinear_cubic_overflow; reflexivity.
  - apply collinear_cubic_underflow; reflexivity.
Qed.

(** C4, amended: case 0 of [flatten4] (neither deviation that the code
    computes exceeds [CURVE_COLLINEARITY_EPSILON]) when the squared chord
    length [k = d.real**2 + d.imag**2] is computed without [OverflowError]
    and is not zero.  When the projection parameters that the code
    computes for [p2] and [p3] both lie strictly inside (0,1) the result is
    empty.  Otherwise each projection is clamped to the chord ([nearest])
    and the squared distances [D2], [D3] of [p2], [p3] to their clamped
    projections are taken; if they are computed without [OverflowError],
    the larger one governs: if [D2 > D3] and [D2 < tol_dist^2] the result
    is [[p2]], and if [D2 > D3] fails and [D3 < tol_dist^2] the result is
    [[p3]]. *)
Theorem flatten4_case0 pow atan2 fuel p1 p2 p3 p4 tol_dist tol_angle level k :
  (level <= CURVE_RECURSION_LIMIT)%Z ->
  let d := (p4 - p1)%C in
  (CURVE_COLLINEARITY_EPSILON <? cross p2 p4 d) = false ->
  (CURVE_COLLINEARITY_EPSILON <? cross p3 p4 d) = false ->
  sq_norm pow d = Ok k ->
  (k =? 0) = false ->
  let u2 := projection4 p2 p1 d (1 / k) in
  let u3 := projection4 p3 p1 d (1 / k) in
  let inside := (0 <? u2) && (u2 <? 1) && ((0 <? u3) && (u3 <? 1)) in
  (inside = true ->
   flatten4 pow atan2 (S fuel) p1 p2 p3 p4 tol_dist tol_angle level = Some (Ok []))
  /\
  (inside = false ->
   forall D2 D3,
     point_sq_distance pow p2 (nearest u2 p1 p4 d) = Ok D2 ->
     point_sq_distance pow p3 (nearest u3 p1 p4 d) = Ok D3 ->
     ((D3 <? D2) = true -> (D2 <? tol_dist * tol_dist) = true ->
      flatten4 pow atan2 (S fuel) p1 p2 p3 p4 tol_dist tol_angle level
      = Some (Ok [p2]))
     /\
     ((D3 <? D2) = false -> (D3 <? tol_dist * tol_dist) = true ->
      flatten4 pow atan2 (S fuel) p1 p2 p3 p4 tol_dist tol_angle level
      = Some (Ok [p3]))).
Proof.
  intros Hlevel d Hd2 Hd3 Hk Hnz u2 u3 inside.
  pose proof (flatten4_stop_case0 pow atan2 p1 p2 p3 p4 tol_dist tol_angle k
                Hd2 Hd3 Hk Hnz) as Hstop.
  cbv zeta in Hstop. fold d in Hstop. fold u2 in Hstop. fold u3 in Hstop.
  fold inside in Hstop.
  split.
  - intros Hin. rewrite Hin in Hstop.
    rewrite (flatten4_of_stop _ _ _ _ _ _ _ _ _ _ _ Hlevel Hstop). reflexivity.
  - intros Hout D2 D3 HD2 HD3.
    rewrite Hout, HD2, HD3 in Hstop. cbn [bind] in Hstop.
    rewrite (flatten4_of_stop _ _ _ _ _ _ _ _ _ _ _ Hlevel Hstop).
    unfold governing. split.
    + intros Hfar Htol. rewrite Hfar, Htol. reflexivity.
    + intros Hfar Htol. rewrite Hfar, Htol. reflexivity.
Qed.

Lemma flatten4_case0_witness :
  flatten4 pow_square atan2_axes 1 (Complex 0 0) (Complex (-1) 0) (Complex 1 0)
    (Complex 2 0) 2 0 0 = Some (Ok [Complex (-1) 0]).
Proof.
  refine (proj1 (proj2 (flatten4_case0 pow_square atan2_axes 0 (Complex 0 0)
                          (Complex (-1) 0) (Complex 1 0) (Complex 2 0)
                          2 0 0%Z 4 _ _ _ _ _) _ 1 0 _ _) _ _).
  - unfold CURVE_RECURSION_LIMIT. lia.
  - reflexivity.
  - reflexivity.
  - reflexivity.
  - reflexivity.
  - reflexivity.
  - reflexivity.
  - reflexivity.
  - reflexivity.
  - reflexivity.
Defined.

Example flatten4_case0_returns_p3 :
  flatten4 pow_square atan2_axes 1 (Complex 0 0) (Complex 1 0) (Complex 3 0)
    (Complex 2 0) 2 0 0 = Some (Ok [Complex 3 0]).
Proof. reflexivity. Qed.

(** ** The cubic flattener: cases 1 and 2 *)

Lemma flatten4_stop_case1 pow atan2 p1 p2 p3 p4 tol_dist tol_angle n :
  let d := (p4 - p1)%C in
  (CURVE_COLLINEARITY_EPSILON <? cross p2 p4 d) = false ->
  (CURVE_COLLINEARITY_EPSILON <? cross p3 p4 d) = true ->
  sq_norm pow d = Ok n ->
  flatten4_stop pow atan2 p1 p2 p3 p4 tol_dist tol_angle =
  if cross p3 p4 d * cross p3 p4 d <=? (tol_dist * tol_dist) * n then
    if tol_angle <? CURVE_ANGLE_TOLERANCE_EPSILON
    then Ok (Return [((p2 + p3) / 2)%C])
    else if turning_angle atan2 (p4 - p3)%C (p3 - p2)%C <? tol_angle
         then Ok (Return [p2; p3])
         else Ok Subdivide
  else Ok Subdivide.
Proof.
  intros d Hd2 Hd3 Hn.
  unfold flatten4_stop. cbv zeta. fold d.
  rewrite flatten4_case_code, Hd2, Hd3. cbn [Z.eqb].
  rewrite Hn. reflexivity.
Qed.

Lemma flatten4_stop_case2 pow atan2 p1 p2 p3 p4 tol_dist tol_angle n :
  let d := (p4 - p1)%C in
  (CURVE_COLLINEARITY_EPSILON <? cross p2 p4 d) = true ->
  (CURVE_COLLINEARITY_EPSILON <? cross p3 p4 d) = false ->
  sq_norm pow d = Ok n ->
  flatten4_stop pow atan2 p1 p2 p3 p4 tol_dist tol_angle =
  if cross p2 p4 d * cross p2 p4 d <=? (tol_dist * tol_dist) * n then
    if tol_angle <? CURVE_ANGLE_TOLERANCE_EPSILON
    then Ok (Return [((p2 + p3) / 2)%C])
    else if turning_angle atan2 (p3 - p2)%C (p2 - p1)%C <? tol_angle
         then Ok (Return [p2; p3])
         else Ok Subdivide
  else Ok Subdivide.
Proof.
  intros d Hd2 Hd3 Hn.
  unfold flatten4_stop. cbv zeta. fold d.
  rewrite flatten4_case_code, Hd2, Hd3. cbn [Z.eqb].
  rewrite Hn. reflexivity.
Qed.

(** In every case of [flatten4] the squared chord length is the first
    thing that may raise: when its computation raises, so does the call. *)
Lemma flatten4_stop_chord_raise pow atan2 p1 p2 p3 p4 tol_dist tol_angle e :
  sq_norm pow (p4 - p1)%C = Raise e ->
  flatten4_stop pow atan2 p1 p2 p3 p4 tol_dist tol_angle = Raise e.
Proof.
  intros He.
  unfold flatten4_stop. cbv zeta.
  rewrite flatten4_case_code, He.
  destruct (CURVE_COLLINEARITY_EPSILON <? cross p2 p4 (p4 - p1)%C),
           (CURVE_COLLINEARITY_EPSILON <? cross p3 p4 (p4 - p1)%C);
    reflexivity.
Qed.

(** Case 1 with a chord of length 2e200. *)
Lemma one_sided_case_overflow pow atan2 :
  pow 2e200 2 = infinity ->
  flatten4_stop pow atan2
    (Complex 0 0) (Complex 1e200 0) (Complex 1e200 1) (Complex 2e200 0) 1 0
  = Raise OverflowError.
Proof.
  intros H. unfold flatten4_stop, sq_norm, pow2. cbn. rewrite H. reflexivity.
Qed.

(** C5, counterexample: a call in case 1 ([d2 = 0], [d3 = 2e200]) that
    neither returns a list nor goes on to subdivide: the square of the
    chord length, on the right of the distance test, overflows and the
    call raises [OverflowError].  What the call needs of libm's [pow] is
    stated: the overflow of a square to [inf]. *)
Lemma one_sided_case_raises :
  (CURVE_COLLINEARITY_EPSILON
   <? cross (Complex 1e200 0) (Complex 2e200 0)
        (Complex 2e200 0 - Complex 0 0)%C) = false
  /\
  (CURVE_COLLINEARITY_EPSILON
   <? cross (Complex 1e200 1) (Complex 2e200 0)
        (Complex 2e200 0 - Complex 0 0)%C) = true
  /\
  ~ (exists pow atan2 v,
        pow 2e200 2 = infinity /\
        flatten4_stop pow atan2
          (Complex 0 0) (Complex 1e200 0) (Complex 1e200 1) (Complex 2e200 0)
          1 0
        = Ok v)
  /\
  ~ (exists pow atan2 fuel pts,
        pow 2e200 2 = infinity /\
        flatten4 pow atan2 fuel
          (Complex 0 0) (Complex 1e200 0) (Complex 1e200 1) (Complex 2e200 0)
          1 0 0
        = Some (Ok pts)).
Proof.
  split; [reflexivity |]. split; [reflexivity |]. split.
  - intros (pow & atan2 & v & Hinf & H).
    rewrite (one_sided_case_overflow pow atan2 Hinf) in H. discriminate H.
  - intros (pow & atan2 & fuel & pts & Hinf & H).
    destruct fuel as [| fuel]; [discriminate H |].
    rewrite flatten4_S, (one_sided_case_overflow pow atan2 Hinf) in H.
    discriminate H.
Qed.

(** The rounded product is a [pow] as the counterexample asks for. *)
Example one_sided_case_overflow_call :
  flatten4 pow_square atan2_axes 1
    (Complex 0 0) (Complex 1e200 0) (Complex 1e200 1) (Complex 2e200 0) 1 0 0
  = Some (Raise OverflowError).
Proof.
  rewrite flatten4_S, one_sided_case_overflow; reflexivity.
Qed.

(** C5, amended: cases 1 and 2 of [flatten4] (exactly one of [d2], [d3]
    exceeds [CURVE_COLLINEARITY_EPSILON]; [dev] is that one, and [v], [w]
    are the two legs whose turning angle the case looks at).  If the
    squared chord length [|d|^2 = d.real**2 + d.imag**2] is computed
    without [OverflowError], then, when the distance test
    [dev^2 <= tol_dist^2 * |d|^2] passes, the result is [[p23]] if
    [tol_angle < CURVE_ANGLE_TOLERANCE_EPSILON], and [[p2; p3]] if the angle
    test is enabled and the normalised turning angle is below [tol_angle];
    in all other situations the call subdivides.  If the computation of
    the squared chord length raises, which it does with [OverflowError]
    only, the call raises [OverflowError]. *)
Theorem flatten4_one_sided pow atan2 fuel p1 p2 p3 p4 tol_dist tol_angle level
    dev v w :
  (level <= CURVE_RECURSION_LIMIT)%Z ->
  let d := (p4 - p1)%C in
  let d2 := cross p2 p4 d in
  let d3 := cross p3 p4 d in
  ((CURVE_COLLINEARITY_EPSILON <? d2) = false /\
   (CURVE_COLLINEARITY_EPSILON <? d3) = true /\
   dev = d3 /\ v = (p4 - p3)%C /\ w = (p3 - p2)%C)
  \/
  ((CURVE_COLLINEARITY_EPSILON <? d2) = true /\
   (CURVE_COLLINEARITY_EPSILON <? d3) = false /\
   dev = d2 /\ v = (p3 - p2)%C /\ w = (p2 - p1)%C) ->
  let skip := tol_angle <? CURVE_ANGLE_TOLERANCE_EPSILON in
  let flat := turning_angle atan2 v w <? tol_angle in
  let call := flatten4 pow atan2 (S fuel) p1 p2 p3 p4 tol_dist tol_angle level in
  (forall n,
      sq_norm pow d = Ok n ->
      let passes := dev * dev <=? (tol_dist * tol_dist) * n in
      (passes = true -> skip = true -> call = Some (Ok [((p2 + p3) / 2)%C]))
      /\
      (passes = true -> skip = false -> flat = true ->
       call = Some (Ok [p2; p3]))
      /\
      (passes = false \/ (skip = false /\ flat = false) ->
       call
       = flatten4_halves pow atan2 fuel p1 p2 p3 p4 tol_dist tol_angle level))
  /\
  (forall e,
      sq_norm pow d = Raise e ->
      e = OverflowError /\ call = Some (Raise OverflowError)).
Proof.
  intros Hlevel d d2 d3 Hcase skip flat call.
  split.
  - intros n Hn passes.
    assert (Hstop :
      flatten4_stop pow atan2 p1 p2 p3 p4 tol_dist tol_angle =
      if passes then
        if skip then Ok (Return [((p2 + p3) / 2)%C])
        else if flat then Ok (Return [p2; p3]) else Ok Subdivide
      else Ok Subdivide).
    { unfold passes, skip, flat.
      destruct Hcase as [(H2 & H3 & -> & -> & ->) | (H2 & H3 & -> & -> & ->)].
      - apply flatten4_stop_case1; assumption.
      - apply flatten4_stop_case2; assumption. }
    unfold call. split; [| split].
    + intros Hp Hs. rewrite Hp, Hs in Hstop.
      rewrite (flatten4_of_stop _ _ _ _ _ _ _ _ _ _ _ Hlevel Hstop). reflexivity.
    + intros Hp Hs Hf. rewrite Hp, Hs, Hf in Hstop.
      rewrite (flatten4_of_stop _ _ _ _ _ _ _ _ _ _ _ Hlevel Hstop). reflexivity.
    + intros [Hp | [Hs Hf]].
      * rewrite Hp in Hstop.
        rewrite (flatten4_of_stop _ _ _ _ _ _ _ _ _ _ _ Hlevel Hstop).
        reflexivity.
      * rewrite Hs, Hf in Hstop.
        assert (Hsub : flatten4_stop pow atan2 p1 p2 p3 p4 tol_dist tol_angle
                       = Ok Subdivide) by (destruct passes; exact Hstop).
        rewrite (flatten4_of_stop _ _ _ _ _ _ _ _ _ _ _ Hlevel Hsub).
        reflexivity.
  - intros e He.
    pose proof (sq_norm_raise _ _ _ He) as ->.
    split; [reflexivity |].
    unfold call. rewrite flatten4_S, (level_within _ Hlevel).
    rewrite (flatten4_stop_chord_raise pow atan2 p1 p2 p3 p4 tol_dist tol_angle
               OverflowError He).
    reflexivity.
Qed.

Lemma flatten4_one_sided_witness :
  flatten4 pow_square atan2_axes 1 (Complex 0 0) (Complex 1 0) (Complex 2 1)
    (Complex 3 0) 1 0 0 = Some (Ok [Complex 1.5 0.5]).
Proof.
  refine (proj1 (proj1 (flatten4_one_sided pow_square atan2_axes 0
                          (Complex 0 0) (Complex 1 0) (Complex 2 1)
                          (Complex 3 0) 1 0 0%Z 3
                          (Complex 1 (-1)) (Complex 1 1) _ _) 9 _) _ _).
  - unfold CURVE_RECURSION_LIMIT. lia.
  - left. repeat split.
  - reflexivity.
  - reflexivity.
  - reflexivity.
Defined.

Example flatten4_case2_midpoint :
  flatten4 pow_square atan2_axes 1 (Complex 0 0) (Complex 1 1) (Complex 2 0)
    (Complex 3 0) 1 0 0 = Some (Ok [Complex 1.5 0.5]).
Proof. reflexivity. Qed.

(** Case 1 with the angle test enabled: the legs [p3 - p2] and [p4 - p3]
    lie on the axes and turn by [pi / 2], below a [tol_angle] of 2. *)
Example flatten4_case1_by_angle :
  flatten4 pow_square atan2_axes 1 (Complex (-1) (-1)) (Complex 0 0) (Complex 0 1)
    (Complex 1 1) 1 2 0 = Some (Ok [Complex 0 0; Complex 0 1]).
Proof. reflexivity. Qed.

(** ** A cubic whose four control points coincide *)

Lemma flatten4_stop_point pow atan2 tol_dist tol_angle :
  flatten4_stop pow atan2 p5 p5 p5 p5 tol_dist tol_angle
  = Ok (governing 0 0 (tol_dist * tol_dist) p5 p5).
Proof. reflexivity. Qed.

Lemma midpoint_p5 : ((p5 + p5) / 2)%C = p5.
Proof. reflexivity. Qed.

(** C1, counterexample: with the default tolerances the polyline of the
    cubic with all control points at (5,5) is never [(5,5), (5,5)]. *)
Lemma degenerate_cubic_not_two_points :
  ~ exists pow atan2 hypot fuel,
      segment2polyline pow atan2 hypot fuel (CubicBezier p5 p5 p5 p5) 1 0
      = Some (Ok [p5; p5]).
Proof.
  intros (pow & atan2 & hypot & fuel & H).
  destruct fuel as [| fuel]; [discriminate H |].
  vm_compute in H. discriminate H.
Qed.

(** C1, amended: for the cubic with all four control points at (5,5) and
    any [tol_dist] whose square is positive (the default 1 included),
    flattening takes a single call of [flatten4] and [segment2polyline]
    returns [(5,5), (5,5), (5,5)]: the interior is the one point [p3]. *)
Theorem degenerate_cubic_polyline pow atan2 hypot fuel tol_dist tol_angle :
  (0 <? tol_dist * tol_dist) = true ->
  segment2polyline pow atan2 hypot (S fuel) (CubicBezier p5 p5 p5 p5)
    tol_dist tol_angle = Some (Ok [p5; p5; p5])
  /\ flatten4_calls pow atan2 (S fuel) p5 p5 p5 p5 tol_dist tol_angle 0
     = Some (Ok 1%N).
Proof.
  intros Htol.
  assert (Hstop : flatten4_stop pow atan2 p5 p5 p5 p5 tol_dist tol_angle
                  = Ok (Return [p5])).
  { rewrite flatten4_stop_point. unfold governing.
    change (0 <? 0) with false. cbv iota. rewrite Htol. reflexivity. }
  split.
  - unfold segment2polyline.
    rewrite (flatten4_of_stop _ _ fuel _ _ _ _ _ _ 0%Z _ ltac:(discriminate) Hstop).
    reflexivity.
  - rewrite flatten4_calls_S, Hstop. reflexivity.
Qed.

Lemma degenerate_cubic_polyline_witness :
  segment2polyline pow_square atan2_axes hypot_sqrt 1 (CubicBezier p5 p5 p5 p5) 1 0
  = Some (Ok [p5; p5; p5])
  /\ flatten4_calls pow_square atan2_axes 1 p5 p5 p5 p5 1 0 0 = Some (Ok 1%N).
Proof.
  apply (degenerate_cubic_polyline pow_square atan2_axes hypot_sqrt 0 1 0).
  reflexivity.
Defined.

(** With [tol_dist = 0] the same cubic never passes a stopping test: every
    call subdivides until the recursion limit cuts it off.  The interior is
    then empty, after [2^(34 - level) - 1] calls. *)
Lemma degenerate_cubic_zero_tolerance pow atan2 tol_angle fuel :
  forall level,
    (level <= CURVE_RECURSION_LIMIT + 1)%Z ->
    (depth_left level <= fuel)%nat ->
    flatten4 pow atan2 fuel p5 p5 p5 p5 0 tol_angle level = Some (Ok [])
    /\ flatten4_calls pow atan2 fuel p5 p5 p5 p5 0 tol_angle level
       = Some (Ok (2 ^ Z.to_N (CURVE_RECURSION_LIMIT + 2 - level) - 1)%N).
Proof.
  induction fuel as [| fuel IH]; intros level Hlevel Hfuel.
  - unfold depth_left in Hfuel. lia.
  - rewrite flatten4_S, flatten4_calls_S.
    destruct (CURVE_RECURSION_LIMIT <? level)%Z eqn:Hcut.
    + apply Z.ltb_lt in Hcut.
      assert (level = CURVE_RECURSION_LIMIT + 1)%Z as -> by lia.
      split; reflexivity.
    + apply Z.ltb_ge in Hcut.
      rewrite flatten4_stop_point.
      change (governing 0 0 (0 * 0) p5 p5) with Subdivide.
      cbv zeta. rewrite !midpoint_p5.
      destruct (IH (level + 1)%Z ltac:(lia) (depth_left_step _ _ Hcut Hfuel))
        as [-> ->].
      split; [reflexivity |].
      cbn [bind_run]. unfold ret. do 2 f_equal.
      replace (Z.to_N (CURVE_RECURSION_LIMIT + 2 - level))
        with (N.succ (Z.to_N (CURVE_RECURSION_LIMIT + 2 - (level + 1))))
        by (unfold CURVE_RECURSION_LIMIT in *; lia).
      rewrite N.pow_succ_r'.
      assert (0 < 2 ^ Z.to_N (CURVE_RECURSION_LIMIT + 2 - (level + 1)))%N
        by (apply N.neq_0_lt_0, N.pow_nonzero; discriminate).
      lia.
Qed.

Example degenerate_cubic_zero_tolerance_calls pow atan2 :
  flatten4 pow atan2 (depth_left 0) p5 p5 p5 p5 0 0 0 = Some (Ok [])
  /\ flatten4_calls pow atan2 (depth_left 0) p5 p5 p5 p5 0 0 0
     = Some (Ok (2 ^ 34 - 1)%N).
Proof.
  apply (degenerate_cubic_zero_tolerance pow atan2 0 (depth_left 0) 0%Z).
  - unfold CURVE_RECURSION_LIMIT. lia.
  - lia.
Qed.

(** ** The arc flattener: coincident endpoints and unbounded recursion *)

(** C10, counterexample: the two evaluated endpoints coincide at the
    point [(inf, 0)] (an evaluator constant at that point), and the call
    raises nothing, whatever the libm, the tolerance and the fuel: the
    chord [p2 - p1 = (nan, 0)] has the modulus NaN, which is not zero, so
    the division goes through and the call bisects. *)
Lemma coincident_infinite_endpoints_raise_nothing :
  ~ exists hypot tol_dist fuel e,
      flatten_arc hypot fuel (fun _ => Complex infinity 0) tol_dist 0 1
      = Some (Raise e).
Proof.
  intros (hypot & tol_dist & fuel & e & H).
  rewrite flatten_arc_infinite in H. discriminate H.
Qed.

(** C10, amended: [flatten_arc] divides by the chord length
    [abs(p2 - p1)] without a guard: in every call whose two evaluated
    endpoints coincide at a point with finite coordinates it raises
    [ZeroDivisionError], and it does so in the call itself: one unit of
    fuel is enough, no recursive call is made.  ([hypot 0 0 = 0] is the one
    fact of libm the statement needs.) *)
Theorem flatten_arc_coincident_endpoints hypot fuel point tol_dist t0 t1 :
  hypot 0 0 = 0 ->
  point t0 = point t1 ->
  finite_point (point t0) ->
  flatten_arc hypot (S fuel) point tol_dist t0 t1
  = Some (Raise ZeroDivisionError).
Proof.
  intros Hhypot Hsame Hfinite.
  rewrite flatten_arc_S. cbv zeta.
  (* the chord [p2 - p1] is exactly zero ... *)
  rewrite <- Hsame, (Csub_diag_finite _ Hfinite).
  (* ... so is its modulus, and the division raises *)
  rewrite (Cabs_zero _ Hhypot). cbn [bind].
  unfold fdiv. change (0 =? 0) with true. reflexivity.
Qed.

Lemma flatten_arc_coincident_endpoints_witness :
  flatten_arc hypot_sqrt 1 (fun _ => p5) 1 0 1 = Some (Raise ZeroDivisionError).
Proof.
  apply (flatten_arc_coincident_endpoints hypot_sqrt 0 (fun _ => p5) 1 0 1).
  - reflexivity.
  - reflexivity.
  - split; reflexivity.
Defined.

(** The endpoints need not come from a constant evaluator: a full turn
    sampled at [t0 = 0] and [t1 = 1] meets itself. *)
Example flatten_arc_closed_curve :
  flatten_arc hypot_sqrt 1
    (fun t => Complex (t * (1 - t)) (t * (1 - t) * (1 - 2 * t))) 1 0 1
  = Some (Raise ZeroDivisionError).
Proof. reflexivity. Qed.

(** An evaluator that returns the same point with finite coordinates for
    every [t] is not an input of unbounded recursion: whatever the
    tolerance, the first call raises. *)
Lemma finite_point_arc_terminates :
  ~ exists hypot p tol_dist,
      hypot 0 0 = 0 /\ finite_point p /\
      forall fuel, flatten_arc hypot fuel (fun _ => p) tol_dist 0 1 = None.
Proof.
  intros (hypot & p & tol_dist & Hh & Hfin & Hloop).
  specialize (Hloop 1%nat).
  rewrite (flatten_arc_zero_chord hypot 0 (fun _ => p) tol_dist 0 1 Hh eq_refl Hfin)
    in Hloop.
  discriminate Hloop.
Qed.

(** C3: [flatten_arc] has no recursion-depth cap, and there is an
    evaluator that returns the same point for every [t] on which its
    bisection never ends: with the point [(inf, 0)], whatever the libm, the
    tolerance and the range, no amount of fuel lets the call return or
    raise. *)
Theorem flatten_arc_unbounded :
  exists point : float -> complex,
    (forall t t', point t = point t')
    /\
    forall hypot tol_dist t0 t1 fuel,
      flatten_arc hypot fuel point tol_dist t0 t1 = None.
Proof.
  exists (fun _ => Complex infinity 0). split.
  - reflexivity.
  - intros hypot tol_dist t0 t1 fuel. apply flatten_arc_infinite.
Qed.

(** So it is with an evaluator whose points have NaN coordinates. *)
Example nan_arc_never_returns :
  flatten_arc hypot_sqrt 2000 (fun _ => Complex nan nan) 1 0 1 = None.
Proof. apply flatten_arc_nan. Qed.

(** ** Which exceptions the flatteners raise *)

Lemma nearest_sq_distance_raise pow u p a b d e :
  clamped_sq_distance pow u p a b d = Raise e -> e = OverflowError.
Proof. rewrite clamped_sq_distance_nearest. apply point_sq_distance_raise. Qed.

Lemma fdiv_nonzero x y : (y =? 0) = false -> fdiv x y = Ok (x / y).
Proof. intros H. unfold fdiv. rewrite H. reflexivity. Qed.



(** One step of the case analysis of a body that ends in [Raise e]. *)
Ltac raise_step :=
  match goal with
  | H : Ok _ = Raise _ |- _ => discriminate H
  | H : Raise _ = Raise _ |- _ => injection H as H; subst
  | H : sq_norm _ _ = Raise _ |- _ => apply sq_norm_raise in H; subst
  | H : point_sq_distance _ _ _ = Raise _ |- _ =>
    apply point_sq_distance_raise in H; subst
  | H : clamped_sq_distance _ _ _ _ _ _ = Raise _ |- _ =>
    apply nearest_sq_distance_raise in H; subst
  | E : (?y =? 0) = false, H : context [fdiv _ ?y] |- _ =>
    rewrite (fdiv_nonzero _ y E) in H; cbn [bind] in H
  | H : bind ?r _ = Raise _ |- _ =>
    let E := fresh "E" in destruct r eqn:E; cbn [bind] in H
  | H : (if ?b then _ else _) = Raise _ |- _ =>
    let E := fresh "E" in destruct b eqn:E
  end.

Lemma flatten3_stop_raise pow atan2 p1 p2 p3 tol_dist tol_angle e :
  flatten3_stop pow atan2 p1 p2 p3 tol_dist tol_angle = Raise e ->
  e = OverflowError.
Proof.
  unfold flatten3_stop. cbv zeta. intros H.
  repeat raise_step; reflexivity.
Qed.

Lemma flatten4_stop_raise pow atan2 p1 p2 p3 p4 tol_dist tol_angle e :
  flatten4_stop pow atan2 p1 p2 p3 p4 tol_dist tol_angle = Raise e ->
  e = OverflowError.
Proof.
  unfold flatten4_stop. cbv zeta. intros H.
  repeat raise_step; reflexivity.
Qed.

Lemma flatten3_raise pow atan2 fuel :
  forall p1 p2 p3 tol_dist tol_angle level e,
    flatten3 pow atan2 fuel p1 p2 p3 tol_dist tol_angle level = Some (Raise e) ->
    e = OverflowError.
Proof.
  induction fuel as [| fuel IH]; intros p1 p2 p3 tol_dist tol_angle level e;
    [discriminate |].
  rewrite flatten3_S.
  destruct (CURVE_RECURSION_LIMIT <? level)%Z; [discriminate |].
  destruct (flatten3_stop pow atan2 p1 p2 p3 tol_dist tol_angle)
    as [[pts |] | e'] eqn:Hstop.
  - discriminate.
  - cbv zeta.
    match goal with
    | |- context [bind_run ?l _] => destruct l as [[pts | e'] |] eqn:Hl
    end; cbn [bind_run].
    + match goal with
      | |- context [bind_run ?r _] => destruct r as [[pts' | e'] |] eqn:Hr
      end; cbn [bind_run]; try discriminate.
      intros [= <-]. exact (IH _ _ _ _ _ _ _ Hr).
    + intros [= <-]. exact (IH _ _ _ _ _ _ _ Hl).
    + discriminate.
  - intros [= <-]. exact (flatten3_stop_raise _ _ _ _ _ _ _ _ Hstop).
Qed.

Lemma flatten4_raise pow atan2 fuel :
  forall p1 p2 p3 p4 tol_dist tol_angle level e,
    flatten4 pow atan2 fuel p1 p2 p3 p4 tol_dist tol_angle level = Some (Raise e) ->
    e = OverflowError.
Proof.
  induction fuel as [| fuel IH]; intros p1 p2 p3 p4 tol_dist tol_angle level e;
    [discriminate |].
  rewrite flatten4_S.
  destruct (CURVE_RECURSION_LIMIT <? level)%Z; [discriminate |].
  destruct (flatten4_stop pow atan2 p1 p2 p3 p4 tol_dist tol_angle)
    as [[pts |] | e'] eqn:Hstop.
  - discriminate.
  - cbv zeta.
    match goal with
    | |- context [bind_run ?l _] => destruct l as [[pts | e'] |] eqn:Hl
    end; cbn [bind_run].
    + match goal with
      | |- context [bind_run ?r _] => destruct r as [[pts' | e'] |] eqn:Hr
      end; cbn [bind_run]; try discriminate.
      intros [= <-]. exact (IH _ _ _ _ _ _ _ _ Hr).
    + intros [= <-]. exact (IH _ _ _ _ _ _ _ _ Hl).
    + discriminate.
  - intros [= <-]. exact (flatten4_stop_raise _ _ _ _ _ _ _ _ _ Hstop).
Qed.


(** ** The dispatch *)


(** The two exceptions of the counterexample do not depend on libm beyond
    [hypot(0, 0) = 0]. *)
Lemma segment2polyline_arc_same_point pow atan2 hypot fuel p tol_dist tol_angle :
  hypot 0 0 = 0 ->
  finite_point p ->
  segment2polyline pow atan2 hypot (S fuel) (Arc p p (fun _ => p))
    tol_dist tol_angle
  = Some (Raise ZeroDivisionError).
Proof.
  intros Hh Hfin. unfold segment2polyline.
  rewrite (flatten_arc_zero_chord hypot fuel (fun _ => p) tol_dist 0 1
             Hh eq_refl Hfin).
  reflexivity.
Qed.

Lemma segment2polyline_tuple pow atan2 hypot fuel items tol_dist tol_angle :
  List.length items <> 1%nat ->
  exists msg,
    segment2polyline pow atan2 hypot fuel (Other (Tuple items))
      tol_dist tol_angle
    = Some (Raise (TypeError msg)).
Proof.
  intros Hlen. destruct items as [| x [| y items]].
  - eexists. reflexivity.
  - now destruct Hlen.
  - eexists. reflexivity.
Qed.



(** A tuple of one item is formatted as that item. *)
Example segment2polyline_one_tuple pow atan2 hypot fuel tol_dist tol_angle :
  segment2polyline pow atan2 hypot fuel (Other (Tuple ["0j"]%string)) tol_dist tol_angle
  = Some (Raise (ValueError "unknown segment: 0j")).
Proof. reflexivity. Qed.

Example segment2polyline_line pow atan2 hypot fuel tol_dist tol_angle :
  segment2polyline pow atan2 hypot fuel (Line (Complex 0 0) (Complex 10 0))
    tol_dist tol_angle = Some (Ok [Complex 0 0; Complex 10 0]).
Proof. reflexivity. Qed.

(** ** Which points the flatteners return *)

Lemma subcurve3_trans p1 p2 p3 q1 q2 q3 r1 r2 r3 :
  subcurve3 p1 p2 p3 q1 q2 q3 ->
  subcurve3 q1 q2 q3 r1 r2 r3 ->
  subcurve3 p1 p2 p3 r1 r2 r3.
Proof.
  intros Hpq Hqr. induction Hqr.
  - exact Hpq.
  - apply subcurve3_left. assumption.
  - apply subcurve3_right. assumption.
Qed.

Lemma subcurve4_trans p1 p2 p3 p4 q1 q2 q3 q4 r1 r2 r3 r4 :
  subcurve4 p1 p2 p3 p4 q1 q2 q3 q4 ->
  subcurve4 q1 q2 q3 q4 r1 r2 r3 r4 ->
  subcurve4 p1 p2 p3 p4 r1 r2 r3 r4.
Proof.
  intros Hpq Hqr. induction Hqr.
  - exact Hpq.
  - apply subcurve4_left. assumption.
  - apply subcurve4_right. assumption.
Qed.

Lemma subrange_trans t0 t1 a b a' b' :
  subrange t0 t1 a b -> subrange a b a' b' -> subrange t0 t1 a' b'.
Proof.
  intros Hab Hab'. induction Hab'.
  - exact Hab.
  - apply subrange_left. assumption.
  - apply subrange_right. assumption.
Qed.

(** One step of the case analysis of a body that ends in [Ok (Return pts)]. *)
Ltac return_step :=
  match goal with
  | H : Raise _ = Ok _ |- _ => discriminate H
  | H : Ok Subdivide = Ok (Return _) |- _ => discriminate H
  | H : Ok (Return _) = Ok (Return _) |- _ => injection H as H; subst
  | H : Ok (within _ _ _) = Ok (Return _) |- _ => unfold within in H
  | H : Ok (governing _ _ _ _ _) = Ok (Return _) |- _ => unfold governing in H
  | H : Ok (if ?b then _ else _) = Ok (Return _) |- _ =>
    let E := fresh "E" in destruct b eqn:E
  | H : bind ?r _ = Ok _ |- _ =>
    let E := fresh "E" in destruct r eqn:E; cbn [bind] in H
  | H : (if ?b then _ else _) = Ok _ |- _ =>
    let E := fresh "E" in destruct b eqn:E
  end.

Lemma flatten3_stop_return pow atan2 p1 p2 p3 tol_dist tol_angle pts :
  flatten3_stop pow atan2 p1 p2 p3 tol_dist tol_angle = Ok (Return pts) ->
  pts = [] \/ pts = [p2] \/
  pts = [(((p1 + p2) / 2 + (p2 + p3) / 2) / 2)%C].
Proof.
  unfold flatten3_stop. cbv zeta. intros H.
  repeat return_step; auto.
Qed.

Lemma flatten4_stop_return pow atan2 p1 p2 p3 p4 tol_dist tol_angle pts :
  flatten4_stop pow atan2 p1 p2 p3 p4 tol_dist tol_angle = Ok (Return pts) ->
  pts = [] \/ pts = [p2] \/ pts = [p3] \/
  pts = [((p2 + p3) / 2)%C] \/ pts = [p2; p3].
Proof.
  unfold flatten4_stop. cbv zeta. intros H.
  repeat return_step; auto 6.
Qed.

Lemma flatten3_points pow atan2 fuel :
  forall p1 p2 p3 tol_dist tol_angle level pts q,
    flatten3 pow atan2 fuel p1 p2 p3 tol_dist tol_angle level = Some (Ok pts) ->
    In q pts ->
    exists q1 q2 q3, subcurve3 p1 p2 p3 q1 q2 q3 /\ candidate3 q1 q2 q3 q.
Proof.
  induction fuel as [| fuel IH];
    intros p1 p2 p3 tol_dist tol_angle level pts q; [discriminate |].
  rewrite flatten3_S.
  destruct (CURVE_RECURSION_LIMIT <? level)%Z.
  { intros [= <-] []. }
  destruct (flatten3_stop pow atan2 p1 p2 p3 tol_dist tol_angle)
    as [[pts0 |] | e] eqn:Hstop; [| | discriminate].
  - intros [= <-] Hq. exists p1, p2, p3. split; [constructor |].
    destruct (flatten3_stop_return _ _ _ _ _ _ _ _ Hstop) as [-> | [-> | ->]].
    + destruct Hq.
    + destruct Hq as [<- | []]. left. reflexivity.
    + destruct Hq as [<- | []]. right. reflexivity.
  - cbv zeta.
    match goal with
    | |- context [bind_run ?l _] => destruct l as [[ptsl | e] |] eqn:Hl
    end; cbn [bind_run]; try discriminate.
    match goal with
    | |- context [bind_run ?r _] => destruct r as [[ptsr | e] |] eqn:Hr
    end; cbn [bind_run]; try discriminate.
    intros [= <-] Hq. apply in_app_or in Hq. destruct Hq as [Hq | Hq].
    + destruct (IH _ _ _ _ _ _ _ _ Hl Hq) as (q1 & q2 & q3 & Hsub & Hcand).
      exists q1, q2, q3. split; [| exact Hcand].
      eapply subcurve3_trans; [| exact Hsub].
      apply subcurve3_left. constructor.
    + destruct (IH _ _ _ _ _ _ _ _ Hr Hq) as (q1 & q2 & q3 & Hsub & Hcand).
      exists q1, q2, q3. split; [| exact Hcand].
      eapply subcurve3_trans; [| exact Hsub].
      apply subcurve3_right. constructor.
Qed.

Lemma flatten4_points pow atan2 fuel :
  forall p1 p2 p3 p4 tol_dist tol_angle level pts q,
    flatten4 pow atan2 fuel p1 p2 p3 p4 tol_dist tol_angle level = Some (Ok pts) ->
    In q pts ->
    exists q1 q2 q3 q4,
      subcurve4 p1 p2 p3 p4 q1 q2 q3 q4 /\ candidate4 q2 q3 q.
Proof.
  induction fuel as [| fuel IH];
    intros p1 p2 p3 p4 tol_dist tol_angle level pts q; [discriminate |].
  rewrite flatten4_S.
  destruct (CURVE_RECURSION_LIMIT <? level)%Z.
  { intros [= <-] []. }
  destruct (flatten4_stop pow atan2 p1 p2 p3 p4 tol_dist tol_angle)
    as [[pts0 |] | e] eqn:Hstop; [| | discriminate].
  - intros [= <-] Hq. exists p1, p2, p3, p4. split; [constructor |].
    unfold candidate4.
    destruct (flatten4_stop_return _ _ _ _ _ _ _ _ _ Hstop)
      as [-> | [-> | [-> | [-> | ->]]]]; cbn [In] in Hq; intuition.
  - cbv zeta.
    match goal with
    | |- context [bind_run ?l _] => destruct l as [[ptsl | e] |] eqn:Hl
    end; cbn [bind_run]; try discriminate.
    match goal with
    | |- context [bind_run ?r _] => destruct r as [[ptsr | e] |] eqn:Hr
    end; cbn [bind_run]; try discriminate.
    intros [= <-] Hq. apply in_app_or in Hq. destruct Hq as [Hq | Hq].
    + destruct (IH _ _ _ _ _ _ _ _ _ Hl Hq) as (q1 & q2 & q3 & q4 & Hsub & Hcand).
      exists q1, q2, q3, q4. split; [| exact Hcand].
      eapply subcurve4_trans; [| exact Hsub].
      apply subcurve4_left. constructor.
    + destruct (IH _ _ _ _ _ _ _ _ _ Hr Hq) as (q1 & q2 & q3 & q4 & Hsub & Hcand).
      exists q1, q2, q3, q4. split; [| exact Hcand].
      eapply subcurve4_trans; [| exact Hsub].
      apply subcurve4_right. constructor.
Qed.

Lemma flatten_arc_points hypot fuel point tol_dist :
  forall t0 t1 pts q,
    flatten_arc hypot fuel point tol_dist t0 t1 = Some (Ok pts) ->
    In q pts ->
    exists a b, subrange t0 t1 a b /\ q = point ((a + b) / 2).
Proof.
  induction fuel as [| fuel IH]; intros t0 t1 pts q; [discriminate |].
  rewrite flatten_arc_S. cbv zeta.
  match goal with
  | |- context [match ?c with Ok _ => _ | Raise _ => _ end] =>
    destruct c as [dist | e]; [| discriminate]
  end.
  destruct (dist <=? tol_dist).
  - intros [= <-] [<- | []]. exists t0, t1. split; [constructor | reflexivity].
  - match goal with
    | |- context [bind_run ?l _] => destruct l as [[ptsl | e] |] eqn:Hl
    end; cbn [bind_run]; try discriminate.
    match goal with
    | |- context [bind_run ?r _] => destruct r as [[ptsr | e] |] eqn:Hr
    end; cbn [bind_run]; try discriminate.
    intros [= <-] Hq. apply in_app_or in Hq. destruct Hq as [Hq | Hq].
    + destruct (IH _ _ _ _ Hl Hq) as (a & b & Hsub & ->).
      exists a, b. split; [| reflexivity].
      eapply subrange_trans; [| exact Hsub]. apply subrange_left. constructor.
    + destruct (IH _ _ _ _ Hr Hq) as (a & b & Hsub & ->).
      exists a, b. split; [| reflexivity].
      eapply subrange_trans; [| exact Hsub]. apply subrange_right. constructor.
Qed.

(** C2, counterexample: the interior that a flattener returns may contain
    the start or end point of the curve.  The cubic with all control points
    at (5,5) has the interior [(5,5)], and a quadratic whose control point
    sits on its start point (0,0) has the interior [(0,0)]. *)
Lemma interior_may_contain_endpoint :
  (exists pts,
      flatten4 pow_square atan2_axes 1 p5 p5 p5 p5 1 0 0 = Some (Ok pts) /\ In p5 pts)
  /\
  (exists pts,
      flatten3 pow_square atan2_axes 1 (Complex 0 0) (Complex 0 0) (Complex 1 0) 1 0 0
      = Some (Ok pts) /\ In (Complex 0 0) pts).
Proof.
  split.
  - exists [p5]. split; [reflexivity | left; reflexivity].
  - exists [Complex 0 0]. split; [reflexivity | left; reflexivity].
Qed.

(** C2, amended: the flatteners never add the start or the end point of
    the curve as such.  Every point that [flatten3] returns is the control
    point or the de Casteljau midpoint [p123] of a curve of its
    subdivision, every point that [flatten4] returns is a control point
    [p2], [p3] or their midpoint [p23] of a curve of its subdivision, and
    every point that [flatten_arc] returns is the evaluator at the middle
    of a range of its bisection.  Such a point can still be equal to the
    start or the end point (when control points coincide with them). *)
Theorem flattened_points_origin pow atan2 hypot fuel tol_dist tol_angle :
  (forall p1 p2 p3 level pts q,
      flatten3 pow atan2 fuel p1 p2 p3 tol_dist tol_angle level = Some (Ok pts) ->
      In q pts ->
      exists q1 q2 q3, subcurve3 p1 p2 p3 q1 q2 q3 /\ candidate3 q1 q2 q3 q)
  /\
  (forall p1 p2 p3 p4 level pts q,
      flatten4 pow atan2 fuel p1 p2 p3 p4 tol_dist tol_angle level = Some (Ok pts) ->
      In q pts ->
      exists q1 q2 q3 q4,
        subcurve4 p1 p2 p3 p4 q1 q2 q3 q4 /\ candidate4 q2 q3 q)
  /\
  (forall point t0 t1 pts q,
      flatten_arc hypot fuel point tol_dist t0 t1 = Some (Ok pts) ->
      In q pts ->
      exists a b, subrange t0 t1 a b /\ q = point ((a + b) / 2)).
Proof.
  split; [| split].
  - intros p1 p2 p3 level pts q. apply flatten3_points.
  - intros p1 p2 p3 p4 level pts q. apply flatten4_points.
  - intros point t0 t1 pts q. apply flatten_arc_points.
Qed.

Lemma flattened_points_origin_witness :
  exists q1 q2 q3,
    subcurve3 (Complex 0 0) (Complex 100 100) (Complex 200 0) q1 q2 q3 /\
    candidate3 q1 q2 q3 (Complex 18.75 16.9921875).
Proof.
  apply (proj1 (flattened_points_origin pow_square atan2_axes hypot_sqrt 10 1 0)
           (Complex 0 0) (Complex 100 100) (Complex 200 0) 0%Z
           [Complex 6.25 6.0546875; Complex 18.75 16.9921875;
            Complex 31.25 26.3671875; Complex 43.75 34.1796875;
            Complex 56.25 40.4296875; Complex 68.75 45.1171875;
            Complex 81.25 48.2421875; Complex 93.75 49.8046875;
            Complex 106.25 49.8046875; Complex 118.75 48.2421875;
            Complex 131.25 45.1171875; Complex 143.75 40.4296875;
            Complex 156.25 34.1796875; Complex 168.75 26.3671875;
            Complex 181.25 16.9921875; Complex 193.75 6.0546875]).
  - reflexivity.
  - right. left. reflexivity.
Defined.

(** * Further properties of the flatteners *)

(** ** Exceptions *)

(** X1: the divisions of [flatten3] and [flatten4] are guarded: neither
    function raises [ZeroDivisionError] (nor [ValueError]); the one
    exception they can raise is the [OverflowError] of [x ** 2]. *)
Theorem bezier_raises_only_overflow pow atan2 fuel p1 p2 p3 p4 tol_dist tol_angle
    level e :
  flatten3 pow atan2 fuel p1 p2 p3 tol_dist tol_angle level = Some (Raise e) \/
  flatten4 pow atan2 fuel p1 p2 p3 p4 tol_dist tol_angle level = Some (Raise e) ->
  e = OverflowError.
Proof.
  intros [H | H].
  - exact (flatten3_raise _ _ _ _ _ _ _ _ _ _ H).
  - exact (flatten4_raise _ _ _ _ _ _ _ _ _ _ _ H).
Qed.

Lemma bezier_raises_only_overflow_witness :
  exists e,
    flatten3 pow_square atan2_axes 1 (Complex 0 0) (Complex 0 0) (Complex 1e200 0) 1 0 0
    = Some (Raise e) /\ e = OverflowError.
Proof.
  exists OverflowError.
  assert (H : flatten3 pow_square atan2_axes 1 (Complex 0 0) (Complex 0 0)
                (Complex 1e200 0) 1 0 0 = Some (Raise OverflowError))
    by reflexivity.
  split; [exact H |].
  exact (bezier_raises_only_overflow pow_square atan2_axes 1 (Complex 0 0) (Complex 0 0)
           (Complex 1e200 0) (Complex 0 0) 1 0 0%Z OverflowError (or_introl H)).
Defined.

(** ** Size of the result and number of calls *)

Lemma pow2_double (n : Z) :
  (0 <= n)%Z -> (2 ^ (n + 1) = 2 * 2 ^ n)%Z.
Proof. intros H. rewrite Z.pow_add_r by lia. lia. Qed.

Lemma pow2_negative (n : Z) : (n < 0)%Z -> (2 ^ n = 0)%Z.
Proof. intros H. apply Z.pow_neg_r. exact H. Qed.

(** The bound on the two halves of a call at [level] adds up to the bound
    on the call. *)
Lemma pow2_halves (level : Z) :
  (level <= CURVE_RECURSION_LIMIT)%Z ->
  (2 ^ (CURVE_RECURSION_LIMIT - (level + 1))
   + 2 ^ (CURVE_RECURSION_LIMIT - (level + 1))
   <= 2 ^ (CURVE_RECURSION_LIMIT - level))%Z.
Proof.
  intros H.
  destruct (Z.eq_dec level CURVE_RECURSION_LIMIT) as [-> | Hne].
  - rewrite pow2_negative by lia. rewrite Z.sub_diag. cbn. lia.
  - replace (CURVE_RECURSION_LIMIT - level)%Z
      with (CURVE_RECURSION_LIMIT - (level + 1) + 1)%Z by lia.
    rewrite pow2_double by lia. lia.
Qed.

Lemma pow2_at_least_1 (level : Z) :
  (level <= CURVE_RECURSION_LIMIT)%Z ->
  (1 <= 2 ^ (CURVE_RECURSION_LIMIT - level))%Z.
Proof.
  intros H.
  assert (0 < 2 ^ (CURVE_RECURSION_LIMIT - level))%Z
    by (apply Z.pow_pos_nonneg; lia).
  lia.
Qed.

Lemma flatten3_length pow atan2 fuel :
  forall p1 p2 p3 tol_dist tol_angle level pts,
    flatten3 pow atan2 fuel p1 p2 p3 tol_dist tol_angle level = Some (Ok pts) ->
    (Z.of_nat (List.length pts) <= 2 ^ (CURVE_RECURSION_LIMIT - level))%Z.
Proof.
  induction fuel as [| fuel IH];
    intros p1 p2 p3 tol_dist tol_angle level pts; [discriminate |].
  rewrite flatten3_S.
  destruct (CURVE_RECURSION_LIMIT <? level)%Z eqn:Hcut.
  { intros [= <-]. apply Z.ltb_lt in Hcut.
    rewrite pow2_negative by lia. reflexivity. }
  apply Z.ltb_ge in Hcut.
  destruct (flatten3_stop pow atan2 p1 p2 p3 tol_dist tol_angle)
    as [[pts0 |] | e] eqn:Hstop; [| | discriminate].
  - intros [= <-]. pose proof (pow2_at_least_1 _ Hcut) as Hone.
    destruct (flatten3_stop_return _ _ _ _ _ _ _ _ Hstop) as [-> | [-> | ->]];
      cbn [List.length]; lia.
  - cbv zeta.
    match goal with
    | |- context [bind_run ?l _] => destruct l as [[ptsl | e] |] eqn:Hl
    end; cbn [bind_run]; try discriminate.
    match goal with
    | |- context [bind_run ?r _] => destruct r as [[ptsr | e] |] eqn:Hr
    end; cbn [bind_run]; try discriminate.
    intros [= <-]. rewrite List.length_app, Nat2Z.inj_add.
    pose proof (IH _ _ _ _ _ _ _ Hl). pose proof (IH _ _ _ _ _ _ _ Hr).
    pose proof (pow2_halves _ Hcut). lia.
Qed.

Lemma flatten4_length pow atan2 fuel :
  forall p1 p2 p3 p4 tol_dist tol_angle level pts,
    flatten4 pow atan2 fuel p1 p2 p3 p4 tol_dist tol_angle level = Some (Ok pts) ->
    (Z.of_nat (List.length pts) <= 2 * 2 ^ (CURVE_RECURSION_LIMIT - level))%Z.
Proof.
  induction fuel as [| fuel IH];
    intros p1 p2 p3 p4 tol_dist tol_angle level pts; [discriminate |].
  rewrite flatten4_S.
  destruct (CURVE_RECURSION_LIMIT <? level)%Z eqn:Hcut.
  { intros [= <-]. apply Z.ltb_lt in Hcut.
    rewrite pow2_negative by lia. reflexivity. }
  apply Z.ltb_ge in Hcut.
  destruct (flatten4_stop pow atan2 p1 p2 p3 p4 tol_dist tol_angle)
    as [[pts0 |] | e] eqn:Hstop; [| | discriminate].
  - intros [= <-]. pose proof (pow2_at_least_1 _ Hcut) as Hone.
    destruct (flatten4_stop_return _ _ _ _ _ _ _ _ _ Hstop)
      as [-> | [-> | [-> | [-> | ->]]]]; cbn [List.length]; lia.
  - cbv zeta.
    match goal with
    | |- context [bind_run ?l _] => destruct l as [[ptsl | e] |] eqn:Hl
    end; cbn [bind_run]; try discriminate.
    match goal with
    | |- context [bind_run ?r _] => destruct r as [[ptsr | e] |] eqn:Hr
    end; cbn [bind_run]; try discriminate.
    intros [= <-]. rewrite List.length_app, Nat2Z.inj_add.
    pose proof (IH _ _ _ _ _ _ _ _ Hl). pose proof (IH _ _ _ _ _ _ _ _ Hr).
    pose proof (pow2_halves _ Hcut). lia.
Qed.

(** X2: the recursion limit bounds the size of the result.  A call of
    [flatten3] at [level] returns at most [2^(32 - level)] points and a call
    of [flatten4] at most [2^(33 - level)]: at most [2^32] and [2^33] for
    the calls that [segment2polyline] makes, and none beyond level 32. *)
Theorem flatten_result_size pow atan2 fuel p1 p2 p3 p4 tol_dist tol_angle level pts :
  (flatten3 pow atan2 fuel p1 p2 p3 tol_dist tol_angle level = Some (Ok pts) ->
   (Z.of_nat (List.length pts) <= 2 ^ (CURVE_RECURSION_LIMIT - level))%Z)
  /\
  (flatten4 pow atan2 fuel p1 p2 p3 p4 tol_dist tol_angle level = Some (Ok pts) ->
   (Z.of_nat (List.length pts) <= 2 * 2 ^ (CURVE_RECURSION_LIMIT - level))%Z).
Proof.
  split.
  - apply flatten3_length.
  - apply flatten4_length.
Qed.

Lemma flatten_result_size_witness :
  flatten3 pow_square atan2_axes 1 (Complex 0 0) (Complex 1 1) (Complex 2 0) 1 0 0
  = Some (Ok [Complex 1 0.5])
  /\ (Z.of_nat (List.length [Complex 1 0.5])
      <= 2 ^ (CURVE_RECURSION_LIMIT - 0))%Z.
Proof.
  assert (H : flatten3 pow_square atan2_axes 1 (Complex 0 0) (Complex 1 1) (Complex 2 0)
                1 0 0 = Some (Ok [Complex 1 0.5])) by reflexivity.
  split; [exact H |].
  exact (proj1 (flatten_result_size pow_square atan2_axes 1 (Complex 0 0) (Complex 1 1)
                  (Complex 2 0) (Complex 3 0) 1 0 0%Z [Complex 1 0.5]) H).
Defined.

(** X3: a call of [flatten4] at [level] gives rise to at most
    [2^(34 - level) - 1] calls, itself included (and to one call beyond the
    limit): [2^34 - 1] for a call at level 0.  The cubic with four
    coincident control points and [tol_dist = 0] attains the bound
    ([degenerate_cubic_zero_tolerance]). *)
Theorem flatten4_calls_bound pow atan2 fuel :
  forall p1 p2 p3 p4 tol_dist tol_angle level n,
    flatten4_calls pow atan2 fuel p1 p2 p3 p4 tol_dist tol_angle level
    = Some (Ok n) ->
    (Z.of_N n <= Z.max 1 (2 ^ (CURVE_RECURSION_LIMIT + 2 - level) - 1))%Z.
Proof.
  induction fuel as [| fuel IH];
    intros p1 p2 p3 p4 tol_dist tol_angle level n; [discriminate |].
  rewrite flatten4_calls_S.
  destruct (CURVE_RECURSION_LIMIT <? level)%Z eqn:Hcut.
  { intros [= <-]. cbn. lia. }
  apply Z.ltb_ge in Hcut.
  destruct (flatten4_stop pow atan2 p1 p2 p3 p4 tol_dist tol_angle)
    as [[pts0 |] | e] eqn:Hstop; [| | discriminate].
  - intros [= <-]. cbn. lia.
  - cbv zeta.
    match goal with
    | |- context [bind_run ?l _] => destruct l as [[nl | e] |] eqn:Hl
    end; cbn [bind_run]; try discriminate.
    match goal with
    | |- context [bind_run ?r _] => destruct r as [[nr | e] |] eqn:Hr
    end; cbn [bind_run]; try discriminate.
    unfold ret. intros Hn.
    assert (Hsum : n = (1 + nl + nr)%N) by congruence. subst n. clear Hn.
    pose proof (IH _ _ _ _ _ _ _ _ Hl) as Bl.
    pose proof (IH _ _ _ _ _ _ _ _ Hr) as Br.
    replace (CURVE_RECURSION_LIMIT + 2 - level)%Z
      with (CURVE_RECURSION_LIMIT + 2 - (level + 1) + 1)%Z by lia.
    rewrite pow2_double by lia.
    assert (2 <= 2 ^ (CURVE_RECURSION_LIMIT + 2 - (level + 1)))%Z.
    { replace (CURVE_RECURSION_LIMIT + 2 - (level + 1))%Z
        with (CURVE_RECURSION_LIMIT - level + 1)%Z by lia.
      rewrite pow2_double by lia.
      pose proof (pow2_at_least_1 _ Hcut). lia. }
    rewrite !N2Z.inj_add. change (Z.of_N 1) with 1%Z.
    set (x := (2 ^ (CURVE_RECURSION_LIMIT + 2 - (level + 1)))%Z) in *.
    lia.
Qed.

Lemma flatten4_calls_bound_witness :
  flatten4_calls pow_square atan2_axes 40 (Complex 0 0) (Complex 100 100)
    (Complex 200 100) (Complex 300 0) 1 0 0 = Some (Ok 31%N)
  /\ (Z.of_N 31 <= Z.max 1 (2 ^ (CURVE_RECURSION_LIMIT + 2 - 0) - 1))%Z.
Proof.
  assert (H : flatten4_calls pow_square atan2_axes 40 (Complex 0 0) (Complex 100 100)
                (Complex 200 100) (Complex 300 0) 1 0 0 = Some (Ok 31%N))
    by (vm_compute; reflexivity).
  split; [exact H |].
  exact (flatten4_calls_bound pow_square atan2_axes 40 (Complex 0 0) (Complex 100 100)
           (Complex 200 100) (Complex 300 0) 1 0 0%Z 31%N H).
Defined.

(** ** The angle test switched off *)

Lemma flatten3_stop_angle_off pow atan2 atan2' p1 p2 p3 tol_dist tol_angle :
  (tol_angle <? CURVE_ANGLE_TOLERANCE_EPSILON) = true ->
  flatten3_stop pow atan2 p1 p2 p3 tol_dist tol_angle
  = flatten3_stop pow atan2' p1 p2 p3 tol_dist tol_angle.
Proof. intros H. unfold flatten3_stop. cbv zeta. rewrite H. reflexivity. Qed.

Lemma flatten4_stop_angle_off pow atan2 atan2' p1 p2 p3 p4 tol_dist tol_angle :
  (tol_angle <? CURVE_ANGLE_TOLERANCE_EPSILON) = true ->
  flatten4_stop pow atan2 p1 p2 p3 p4 tol_dist tol_angle
  = flatten4_stop pow atan2' p1 p2 p3 p4 tol_dist tol_angle.
Proof. intros H. unfold flatten4_stop. cbv zeta. rewrite H. reflexivity. Qed.

Lemma flatten3_angle_off pow atan2 atan2' tol_dist tol_angle fuel :
  (tol_angle <? CURVE_ANGLE_TOLERANCE_EPSILON) = true ->
  forall p1 p2 p3 level,
    flatten3 pow atan2 fuel p1 p2 p3 tol_dist tol_angle level
    = flatten3 pow atan2' fuel p1 p2 p3 tol_dist tol_angle level.
Proof.
  intros H. induction fuel as [| fuel IH]; intros p1 p2 p3 level; [reflexivity |].
  rewrite !flatten3_S, (flatten3_stop_angle_off pow atan2 atan2' _ _ _ _ _ H).
  cbv zeta. rewrite !IH. reflexivity.
Qed.

Lemma flatten4_angle_off pow atan2 atan2' tol_dist tol_angle fuel :
  (tol_angle <? CURVE_ANGLE_TOLERANCE_EPSILON) = true ->
  forall p1 p2 p3 p4 level,
    flatten4 pow atan2 fuel p1 p2 p3 p4 tol_dist tol_angle level
    = flatten4 pow atan2' fuel p1 p2 p3 p4 tol_dist tol_angle level.
Proof.
  intros H. induction fuel as [| fuel IH]; intros p1 p2 p3 p4 level;
    [reflexivity |].
  rewrite !flatten4_S, (flatten4_stop_angle_off pow atan2 atan2' _ _ _ _ _ _ H).
  cbv zeta. rewrite !IH. reflexivity.
Qed.

(** X4: with [tol_angle] below [CURVE_ANGLE_TOLERANCE_EPSILON] (the default
    0 in particular) the angle test is never made: [math.atan2] is not
    called, and the results of [flatten3], of [flatten4] and of
    [segment2polyline] are the same whatever that function would return. *)
Theorem angle_test_disabled pow atan2 atan2' hypot fuel tol_dist tol_angle :
  (tol_angle <? CURVE_ANGLE_TOLERANCE_EPSILON) = true ->
  (forall p1 p2 p3 level,
      flatten3 pow atan2 fuel p1 p2 p3 tol_dist tol_angle level
      = flatten3 pow atan2' fuel p1 p2 p3 tol_dist tol_angle level)
  /\
  (forall p1 p2 p3 p4 level,
      flatten4 pow atan2 fuel p1 p2 p3 p4 tol_dist tol_angle level
      = flatten4 pow atan2' fuel p1 p2 p3 p4 tol_dist tol_angle level)
  /\
  (forall seg,
      segment2polyline pow atan2 hypot fuel seg tol_dist tol_angle
      = segment2polyline pow atan2' hypot fuel seg tol_dist tol_angle).
Proof.
  intros H. split; [| split].
  - apply flatten3_angle_off, H.
  - apply flatten4_angle_off, H.
  - intros seg. destruct seg; cbn [segment2polyline]; try reflexivity.
    + rewrite (flatten3_angle_off pow atan2 atan2' _ _ _ H). reflexivity.
    + rewrite (flatten4_angle_off pow atan2 atan2' _ _ _ H). reflexivity.
Qed.

Lemma angle_test_disabled_witness :
  (0 <? CURVE_ANGLE_TOLERANCE_EPSILON) = true /\
  segment2polyline pow_square atan2_axes hypot_sqrt 40
    (CubicBezier (Complex 0 0) (Complex 100 100) (Complex 200 100)
       (Complex 300 0)) 1 0
  = segment2polyline pow_square (fun _ _ => nan) hypot_sqrt 40
      (CubicBezier (Complex 0 0) (Complex 100 100) (Complex 200 100)
         (Complex 300 0)) 1 0.
Proof.
  assert (H : (0 <? CURVE_ANGLE_TOLERANCE_EPSILON) = true) by reflexivity.
  split; [exact H |].
  exact (proj2 (proj2 (angle_test_disabled pow_square atan2_axes (fun _ _ => nan)
                         hypot_sqrt 40 1 0 H))
           (CubicBezier (Complex 0 0) (Complex 100 100) (Complex 200 100)
              (Complex 300 0))).
Defined.

(** ** The ends of a polyline *)

(** The polyline that [segment2polyline] returns starts at the start
    point of the segment and ends at its end point, exactly, and has at
    least two points. *)
Lemma segment2polyline_endpoints pow atan2 hypot fuel seg tol_dist tol_angle pts :
  segment2polyline pow atan2 hypot fuel seg tol_dist tol_angle = Some (Ok pts) ->
  exists inner,
    pts = segment_start seg :: inner ++ [segment_end seg].
Proof.
  destruct seg; cbn [segment2polyline segment_start segment_end].
  - intros [= <-]. exists []. reflexivity.
  - destruct (flatten3 _ _ _ _ _ _ _ _ _) as [[inner | e] |];
      cbn [bind_run]; try discriminate.
    intros [= <-]. exists inner. reflexivity.
  - destruct (flatten4 _ _ _ _ _ _ _ _ _ _) as [[inner | e] |];
      cbn [bind_run]; try discriminate.
    intros [= <-]. exists inner. reflexivity.
  - destruct (flatten_arc _ _ _ _ _ _) as [[inner | e] |];
      cbn [bind_run]; try discriminate.
    intros [= <-]. exists inner. reflexivity.
  - destruct (format_unknown_segment obj); discriminate.
Qed.

(** ** The remaining stopping rules *)

Lemma flatten4_stop_case3 pow atan2 p1 p2 p3 p4 tol_dist tol_angle n :
  let d := (p4 - p1)%C in
  (CURVE_COLLINEARITY_EPSILON <? cross p2 p4 d) = true ->
  (CURVE_COLLINEARITY_EPSILON <? cross p3 p4 d) = true ->
  sq_norm pow d = Ok n ->
  flatten4_stop pow atan2 p1 p2 p3 p4 tol_dist tol_angle =
  if (cross p2 p4 d + cross p3 p4 d) * (cross p2 p4 d + cross p3 p4 d)
     <=? (tol_dist * tol_dist) * n then
    if tol_angle <? CURVE_ANGLE_TOLERANCE_EPSILON
    then Ok (Return [((p2 + p3) / 2)%C])
    else if turning_angle atan2 (p3 - p2)%C (p2 - p1)%C
            + turning_angle atan2 (p4 - p3)%C (p3 - p2)%C <? tol_angle
         then Ok (Return [((p2 + p3) / 2)%C])
         else Ok Subdivide
  else Ok Subdivide.
Proof.
  intros d Hd2 Hd3 Hn.
  unfold flatten4_stop. cbv zeta. fold d.
  rewrite flatten4_case_code, Hd2, Hd3. cbn [Z.eqb].
  rewrite Hn. reflexivity.
Qed.

(** X5: case 3 of [flatten4], the regular case (both deviations exceed
    [CURVE_COLLINEARITY_EPSILON]).  If the computation of the squared chord
    length [|d|^2 = d.real**2 + d.imag**2] overflows, the call raises
    [OverflowError].  If not, the call returns the single point [p23] when
    [(d2 + d3)^2 <= tol_dist^2 * |d|^2] and either the angle test is off or
    the two turning angles add up to less than [tol_angle], and it
    subdivides otherwise. *)
Theorem flatten4_regular pow atan2 fuel p1 p2 p3 p4 tol_dist tol_angle level :
  (level <= CURVE_RECURSION_LIMIT)%Z ->
  let d := (p4 - p1)%C in
  let d2 := cross p2 p4 d in
  let d3 := cross p3 p4 d in
  (CURVE_COLLINEARITY_EPSILON <? d2) = true ->
  (CURVE_COLLINEARITY_EPSILON <? d3) = true ->
  let skip := tol_angle <? CURVE_ANGLE_TOLERANCE_EPSILON in
  let flat := turning_angle atan2 (p3 - p2)%C (p2 - p1)%C
              + turning_angle atan2 (p4 - p3)%C (p3 - p2)%C <? tol_angle in
  flatten4 pow atan2 (S fuel) p1 p2 p3 p4 tol_dist tol_angle level =
  match sq_norm pow d with
  | Raise _ => Some (Raise OverflowError)
  | Ok n =>
    let passes := (d2 + d3) * (d2 + d3) <=? (tol_dist * tol_dist) * n in
    if passes && (skip || flat) then Some (Ok [((p2 + p3) / 2)%C])
    else flatten4_halves pow atan2 fuel p1 p2 p3 p4 tol_dist tol_angle level
  end.
Proof.
  intros Hlevel d d2 d3 Hd2 Hd3 skip flat.
  destruct (sq_norm pow d) as [n | e] eqn:Hn.
  - pose proof (flatten4_stop_case3 pow atan2 p1 p2 p3 p4 tol_dist tol_angle n
                  Hd2 Hd3 Hn) as Hstop.
    cbv zeta in Hstop. fold d in Hstop. fold d2 in Hstop. fold d3 in Hstop.
    fold skip in Hstop. fold flat in Hstop. cbv zeta.
    destruct ((d2 + d3) * (d2 + d3) <=? tol_dist * tol_dist * n), skip, flat;
      cbn [andb orb];
      rewrite (flatten4_of_stop _ _ _ _ _ _ _ _ _ _ _ Hlevel Hstop);
      reflexivity.
  - pose proof (sq_norm_raise _ _ _ Hn) as ->.
    rewrite flatten4_S, (level_within _ Hlevel).
    rewrite (flatten4_stop_chord_raise pow atan2 p1 p2 p3 p4 tol_dist tol_angle
               OverflowError Hn).
    reflexivity.
Qed.

Lemma flatten4_regular_witness :
  flatten4 pow_square atan2_axes 1 (Complex 0 0) (Complex 1 1) (Complex 2 1) (Complex 3 0)
    2 0 0 = Some (Ok [Complex 1.5 1]).
Proof.
  refine (flatten4_regular pow_square atan2_axes 0 (Complex 0 0) (Complex 1 1)
            (Complex 2 1) (Complex 3 0) 2 0 0%Z _ _ _).
  - unfold CURVE_RECURSION_LIMIT. lia.
  - reflexivity.
  - reflexivity.
Defined.

(** Case 3 with a chord of length 2e200: the call raises. *)
Example regular_case_overflow :
  flatten4 pow_square atan2_axes 1 (Complex 0 0) (Complex 1e200 1) (Complex 1e200 1)
    (Complex 2e200 0) 1 0 0 = Some (Raise OverflowError).
Proof. reflexivity. Qed.

Lemma flatten3_stop_collinear pow atan2 p1 p2 p3 tol_dist tol_angle da :
  let d := (p3 - p1)%C in
  (CURVE_COLLINEARITY_EPSILON <? cross p2 p3 d) = false ->
  sq_norm pow d = Ok da ->
  let u := projection3 p2 p1 d da in
  flatten3_stop pow atan2 p1 p2 p3 tol_dist tol_angle =
  if da =? 0 then
    (D <- point_sq_distance pow p1 p2 ;;
     Ok (within D (tol_dist * tol_dist) p2))%result
  else if (0 <? u) && (u <? 1) then Ok (Return [])
  else
    (D <- point_sq_distance pow p2 (nearest u p1 p3 d) ;;
     Ok (within D (tol_dist * tol_dist) p2))%result.
Proof.
  intros d Hdist Hda u.
  unfold flatten3_stop. cbv zeta. fold d.
  rewrite Hdist, Hda. cbn [bind].
  destruct (da =? 0) eqn:Hnz; [reflexivity |].
  rewrite (fdiv_nonzero _ _ Hnz). cbn [bind].
  fold (projection3 p2 p1 d da). fold u.
  rewrite clamped_sq_distance_nearest. reflexivity.
Qed.

(** X6: the collinear case of [flatten3] when the control point does not
    project strictly inside the chord, the squared chord length [da] and
    the projection parameter [u] being the ones the code computes.  Let
    [D] be the squared distance from [p2] to [p1] if [da] is zero, and
    otherwise from [p2] to the end of the chord nearer to its projection.
    When [da] and [D] are computed without [OverflowError], the call
    returns [[p2]], the control point itself, if [D < tol_dist^2], and
    subdivides otherwise. *)
Theorem flatten3_collinear_outside pow atan2 fuel p1 p2 p3 tol_dist tol_angle level
    da D :
  (level <= CURVE_RECURSION_LIMIT)%Z ->
  let d := (p3 - p1)%C in
  (CURVE_COLLINEARITY_EPSILON <? cross p2 p3 d) = false ->
  sq_norm pow d = Ok da ->
  let u := projection3 p2 p1 d da in
  ((da =? 0) = true /\ point_sq_distance pow p1 p2 = Ok D)
  \/
  ((da =? 0) = false /\ ((0 <? u) && (u <? 1)) = false /\
   point_sq_distance pow p2 (nearest u p1 p3 d) = Ok D) ->
  flatten3 pow atan2 (S fuel) p1 p2 p3 tol_dist tol_angle level =
  if D <? tol_dist * tol_dist then Some (Ok [p2])
  else flatten3_halves pow atan2 fuel p1 p2 p3 tol_dist tol_angle level.
Proof.
  intros Hlevel d Hdist Hda u Hcase.
  pose proof (flatten3_stop_collinear pow atan2 p1 p2 p3 tol_dist tol_angle da
                Hdist Hda) as Hstop.
  cbv zeta in Hstop. fold d in Hstop. fold u in Hstop.
  assert (Hverdict : flatten3_stop pow atan2 p1 p2 p3 tol_dist tol_angle
                     = Ok (within D (tol_dist * tol_dist) p2)).
  { destruct Hcase as [[Hz HD] | [Hz [Hout HD]]];
      rewrite Hz in Hstop; [| rewrite Hout in Hstop];
      rewrite HD in Hstop; exact Hstop. }
  rewrite (flatten3_of_stop _ _ _ _ _ _ _ _ _ _ Hlevel Hverdict).
  unfold within. destruct (D <? tol_dist * tol_dist); reflexivity.
Qed.

Lemma flatten3_collinear_outside_witness :
  flatten3 pow_square atan2_axes 1 (Complex 0 0) (Complex 3 0) (Complex 2 0) 2 0 0
  = Some (Ok [Complex 3 0]).
Proof.
  refine (flatten3_collinear_outside pow_square atan2_axes 0 (Complex 0 0) (Complex 3 0)
            (Complex 2 0) 2 0 0%Z 4 1 _ _ _ _).
  - unfold CURVE_RECURSION_LIMIT. lia.
  - reflexivity.
  - reflexivity.
  - right. repeat split.
Defined.

(** The control point of a quadratic that is a needle (start and end
    coincide) is kept when it is within [tol_dist] of them. *)
Example flatten3_zero_chord :
  flatten3 pow_square atan2_axes 1 (Complex 0 0) (Complex 0.5 0) (Complex 0 0) 1 0 0
  = Some (Ok [Complex 0.5 0]).
Proof. reflexivity. Qed.

(** X7: case 0 of [flatten4] when the squared chord length that the code
    computes is zero (as when the curve starts and ends at one point).
    With [D2] the squared distance from [p1] to [p2] and [D3] that from
    [p4] to [p3], both computed without [OverflowError], the call returns
    [[p2]] if [D2 > D3] and [D2 < tol_dist^2], returns [[p3]] if [D2 > D3]
    fails and [D3 < tol_dist^2], and subdivides otherwise. *)
Theorem flatten4_zero_chord pow atan2 fuel p1 p2 p3 p4 tol_dist tol_angle level
    k D2 D3 :
  (level <= CURVE_RECURSION_LIMIT)%Z ->
  let d := (p4 - p1)%C in
  (CURVE_COLLINEARITY_EPSILON <? cross p2 p4 d) = false ->
  (CURVE_COLLINEARITY_EPSILON <? cross p3 p4 d) = false ->
  sq_norm pow d = Ok k ->
  (k =? 0) = true ->
  point_sq_distance pow p1 p2 = Ok D2 ->
  point_sq_distance pow p4 p3 = Ok D3 ->
  flatten4 pow atan2 (S fuel) p1 p2 p3 p4 tol_dist tol_angle level =
  if (D3 <? D2) && (D2 <? tol_dist * tol_dist) then Some (Ok [p2])
  else if negb (D3 <? D2) && (D3 <? tol_dist * tol_dist) then Some (Ok [p3])
  else flatten4_halves pow atan2 fuel p1 p2 p3 p4 tol_dist tol_angle level.
Proof.
  intros Hlevel d Hd2 Hd3 Hk Hz HD2 HD3.
  assert (Hstop : flatten4_stop pow atan2 p1 p2 p3 p4 tol_dist tol_angle
                  = Ok (governing D2 D3 (tol_dist * tol_dist) p2 p3)).
  { unfold flatten4_stop. cbv zeta. fold d.
    rewrite flatten4_case_code, Hd2, Hd3. cbn [Z.eqb].
    rewrite Hk. cbn [bind]. rewrite Hz, HD2. cbn [bind]. rewrite HD3.
    reflexivity. }
  rewrite (flatten4_of_stop _ _ _ _ _ _ _ _ _ _ _ Hlevel Hstop).
  unfold governing.
  destruct (D3 <? D2), (D2 <? tol_dist * tol_dist),
    (D3 <? tol_dist * tol_dist); reflexivity.
Qed.

Lemma flatten4_zero_chord_witness :
  flatten4 pow_square atan2_axes 1 (Complex 0 0) (Complex 3 0) (Complex 0 4) (Complex 0 0)
    5 0 0 = Some (Ok [Complex 0 4]).
Proof.
  refine (flatten4_zero_chord pow_square atan2_axes 0 (Complex 0 0) (Complex 3 0)
            (Complex 0 4) (Complex 0 0) 5 0 0%Z 0 9 16 _ _ _ _ _ _ _).
  - unfold CURVE_RECURSION_LIMIT. lia.
  - reflexivity.
  - reflexivity.
  - reflexivity.
  - reflexivity.
  - reflexivity.
  - reflexivity.
Defined.

(** ** The sign of the distance tolerance *)

Lemma mul_opp_opp (x : float) : (- x) * (- x) = x * x.
Proof.
  apply Prim2SF_inj. rewrite !mul_spec, opp_spec.
  destruct (Prim2SF x) as [s | s | | s m e]; cbn; try reflexivity;
    destruct s; reflexivity.
Qed.

Lemma flatten3_stop_opp pow atan2 p1 p2 p3 tol_dist tol_angle :
  flatten3_stop pow atan2 p1 p2 p3 (- tol_dist) tol_angle
  = flatten3_stop pow atan2 p1 p2 p3 tol_dist tol_angle.
Proof. unfold flatten3_stop. cbv zeta. rewrite mul_opp_opp. reflexivity. Qed.

Lemma flatten4_stop_opp pow atan2 p1 p2 p3 p4 tol_dist tol_angle :
  flatten4_stop pow atan2 p1 p2 p3 p4 (- tol_dist) tol_angle
  = flatten4_stop pow atan2 p1 p2 p3 p4 tol_dist tol_angle.
Proof. unfold flatten4_stop. cbv zeta. rewrite mul_opp_opp. reflexivity. Qed.

(** X8: [flatten3] and [flatten4] use [tol_dist] through its square only:
    a negative tolerance is accepted and acts as its absolute value. *)
Theorem bezier_tolerance_sign pow atan2 tol_dist tol_angle fuel :
  (forall p1 p2 p3 level,
      flatten3 pow atan2 fuel p1 p2 p3 (- tol_dist) tol_angle level
      = flatten3 pow atan2 fuel p1 p2 p3 tol_dist tol_angle level)
  /\
  (forall p1 p2 p3 p4 level,
      flatten4 pow atan2 fuel p1 p2 p3 p4 (- tol_dist) tol_angle level
      = flatten4 pow atan2 fuel p1 p2 p3 p4 tol_dist tol_angle level).
Proof.
  induction fuel as [| fuel [IH3 IH4]]; [split; reflexivity |].
  split.
  - intros p1 p2 p3 level.
    rewrite !flatten3_S, flatten3_stop_opp. cbv zeta. rewrite !IH3.
    reflexivity.
  - intros p1 p2 p3 p4 level.
    rewrite !flatten4_S, flatten4_stop_opp. cbv zeta. rewrite !IH4.
    reflexivity.
Qed.

Example bezier_tolerance_sign_example :
  flatten3 pow_square atan2_axes 40 (Complex 0 0) (Complex 100 100) (Complex 200 0)
    (-1) 0 0
  = flatten3 pow_square atan2_axes 40 (Complex 0 0) (Complex 100 100) (Complex 200 0)
      1 0 0.
Proof. reflexivity. Qed.

(** ** More on the arc flattener *)

(** X9: [flatten_arc] never returns an empty list: where it returns, the
    interior of an arc has at least one point (so that the polyline of an
    [Arc] has at least three). *)
Theorem flatten_arc_nonempty hypot fuel point tol_dist :
  forall t0 t1 pts,
    flatten_arc hypot fuel point tol_dist t0 t1 = Some (Ok pts) ->
    pts <> [].
Proof.
  induction fuel as [| fuel IH]; intros t0 t1 pts; [discriminate |].
  rewrite flatten_arc_S. cbv zeta.
  match goal with
  | |- context [match ?c with Ok _ => _ | Raise _ => _ end] =>
    destruct c as [dist | e]; [| discriminate]
  end.
  destruct (dist <=? tol_dist).
  - intros [= <-]. discriminate.
  - match goal with
    | |- context [bind_run ?l _] => destruct l as [[ptsl | e] |] eqn:Hl
    end; cbn [bind_run]; try discriminate.
    match goal with
    | |- context [bind_run ?r _] => destruct r as [[ptsr | e] |] eqn:Hr
    end; cbn [bind_run]; try discriminate.
    intros [= <-] Hnil. apply app_eq_nil in Hnil.
    exact (IH _ _ _ Hl (proj1 Hnil)).
Qed.

Lemma flatten_arc_nonempty_witness :
  flatten_arc hypot_sqrt 1 (fun t => Complex t (t * (1 - t))) 1 0 1
  = Some (Ok [Complex 0.5 0.25])
  /\ [Complex 0.5 0.25] <> [].
Proof.
  assert (H : flatten_arc hypot_sqrt 1 (fun t => Complex t (t * (1 - t))) 1 0 1
              = Some (Ok [Complex 0.5 0.25])) by reflexivity.
  split; [exact H |].
  exact (flatten_arc_nonempty hypot_sqrt 1 (fun t => Complex t (t * (1 - t)))
           1 0 1 [Complex 0.5 0.25] H).
Defined.

(** *** A negative tolerance *)

Lemma binary_round_aux_not_below_zero m e l :
  not_below_zero (binary_round_aux prec emax false m e l).
Proof.
  unfold binary_round_aux.
  destruct (shr_fexp prec emax m e l) as [mrs' e'].
  destruct (shr_fexp prec emax _ e' loc_Exact) as [mrs'' e''].
  destruct (shr_m mrs'') as [| q | q]; cbn; auto.
  destruct (e'' <=? _)%Z; reflexivity.
Qed.

Lemma abs_not_below_zero (x : float) : not_below_zero (Prim2SF (abs x)).
Proof. rewrite abs_spec. destruct (Prim2SF x); cbn; auto. Qed.

Lemma ltb_zero_not_below_zero (x : float) :
  (x <? 0) = false -> not_below_zero (Prim2SF x).
Proof.
  rewrite ltb_spec. change (Prim2SF 0) with (S754_zero false).
  destruct (Prim2SF x) as [s | s | | s m e]; cbn; auto;
    destruct s; auto; discriminate.
Qed.

Lemma sqrt_not_negative (x : float) : (sqrt x <? 0) = false.
Proof.
  rewrite ltb_spec, sqrt_spec. change (Prim2SF 0) with (S754_zero false).
  unfold SF64sqrt, SFsqrt.
  destruct (Prim2SF x) as [s | s | | s m e]; try reflexivity.
  - destruct s; reflexivity.
  - destruct s; [reflexivity |].
    destruct (SFsqrt_core_binary prec emax (Z.pos m) e) as [[mz ez] lz].
    pose proof (binary_round_aux_not_below_zero mz ez lz) as H.
    destruct (binary_round_aux prec emax false mz ez lz) as [s | s | | s m' e'];
      cbn in H; subst; reflexivity.
Qed.

Lemma div_not_below_zero (a c : float) :
  not_below_zero (Prim2SF a) ->
  not_below_zero (Prim2SF c) ->
  (c =? 0) = false ->
  not_below_zero (Prim2SF (a / c)).
Proof.
  rewrite div_spec, FloatAxioms.eqb_spec.
  change (Prim2SF 0) with (S754_zero false).
  unfold SF64div, SFdiv.
  destruct (Prim2SF a) as [sa | sa | | sa ma ea];
    destruct (Prim2SF c) as [sc | sc | | sc mc ec]; cbn;
    intros Ha Hc Hnz; subst; auto; try discriminate.
  destruct (SFdiv_core_binary prec emax (Z.pos ma) ea (Z.pos mc) ec)
    as [[mz ez] lz].
  apply binary_round_aux_not_below_zero.
Qed.

Lemma leb_negative (x t : float) :
  not_below_zero (Prim2SF x) -> (t <? 0) = true -> (x <=? t) = false.
Proof.
  rewrite ltb_spec, leb_spec. change (Prim2SF 0) with (S754_zero false).
  destruct (Prim2SF x) as [sx | sx | | sx mx ex];
    destruct (Prim2SF t) as [st | st | | st mt et]; cbn;
    intros Hx Ht; subst; try discriminate; try reflexivity;
    destruct st; try discriminate; reflexivity.
Qed.

Lemma Cabs_not_negative hypot z chord :
  (forall x y, (hypot x y <? 0) = false) ->
  Cabs hypot z = Ok chord ->
  (chord <? 0) = false.
Proof.
  intros Hh. unfold Cabs. cbv zeta.
  destruct (is_finite (real z) && is_finite (imag z)).
  - destruct (is_finite (hypot (real z) (imag z))); [| discriminate].
    intros [= <-]. apply Hh.
  - destruct (is_infinity (real z) || is_infinity (imag z));
      intros [= <-]; reflexivity.
Qed.

(** X10: unlike the Bezier flatteners, [flatten_arc] compares the distance
    itself with [tol_dist]: under a negative tolerance the test
    [dist <= tol_dist] fails in every call, so that the function never
    returns a list; each call raises or recurses further.  ([hypot] never
    returns a negative number.) *)
Theorem flatten_arc_negative_tolerance hypot fuel point tol_dist :
  (forall x y, (hypot x y <? 0) = false) ->
  (tol_dist <? 0) = true ->
  forall t0 t1 pts,
    flatten_arc hypot fuel point tol_dist t0 t1 <> Some (Ok pts).
Proof.
  intros Hh Htol.
  induction fuel as [| fuel IH]; intros t0 t1 pts; [discriminate |].
  rewrite flatten_arc_S. cbv zeta.
  destruct (Cabs hypot (point t1 - point t0)%C) as [chord | e] eqn:Hchord;
    cbn [bind]; [| discriminate].
  unfold fdiv. destruct (chord =? 0) eqn:Hnz; [discriminate |].
  rewrite leb_negative; [| | exact Htol].
  - match goal with
    | |- context [bind_run ?l _] => destruct l as [[ptsl | e] |] eqn:Hl
    end; cbn [bind_run]; try discriminate.
    exfalso. exact (IH _ _ _ Hl).
  - apply div_not_below_zero.
    + apply abs_not_below_zero.
    + apply ltb_zero_not_below_zero.
      exact (Cabs_not_negative _ _ _ Hh Hchord).
    + exact Hnz.
Qed.

Lemma hypot_sqrt_not_negative (x y : float) : (hypot_sqrt x y <? 0) = false.
Proof. apply sqrt_not_negative. Qed.

Lemma flatten_arc_negative_tolerance_witness :
  (-1 <? 0) = true /\
  flatten_arc hypot_sqrt 30 (fun t => Complex t (t * (1 - t))) (-1) 0 1
  <> Some (Ok [Complex 0.5 0.25]).
Proof.
  assert (H : (-1 <? 0) = true) by reflexivity.
  split; [exact H |].
  exact (flatten_arc_negative_tolerance hypot_sqrt 30
           (fun t => Complex t (t * (1 - t))) (-1)
           hypot_sqrt_not_negative H 0 1 [Complex 0.5 0.25]).
Defined.

(** * Assembling the polylines of a path *)

Lemma isclose_same hypot a abs_tol :
  number_point a -> isclose hypot a a abs_tol = true.
Proof.
  intros [Hr Hi]. unfold is_nan in Hr, Hi.
  apply negb_false_iff in Hr. apply negb_false_iff in Hi.
  unfold isclose. cbv zeta. rewrite Hr, Hi. reflexivity.
Qed.

Lemma item_last_snoc {A : Type} (l : list A) (x : A) :
  item_last (l ++ [x]) = Value x.
Proof.
  destruct l as [| y l]; [reflexivity |].
  cbn [app item_last]. f_equal. apply last_last.
Qed.

Lemma item_last_value {A : Type} (l : list A) :
  l <> [] -> exists x l', l = l' ++ [x] /\ item_last l = Value x.
Proof.
  intros H. destruct (exists_last H) as (l' & x & ->).
  exists x, l'. split; [reflexivity | apply item_last_snoc].
Qed.

Lemma extend_last_snoc (parts : list (list complex)) part polyseg :
  extend_last (parts ++ [part]) polyseg = parts ++ [part ++ polyseg].
Proof.
  unfold extend_last. rewrite removelast_last, last_last. reflexivity.
Qed.

Lemma polyline_nonempty pow atan2 hypot fuel seg tol_dist tol_angle polyseg :
  segment2polyline pow atan2 hypot fuel seg tol_dist tol_angle = Some (Ok polyseg) ->
  polyseg <> [].
Proof.
  intros H. destruct (segment2polyline_endpoints _ _ _ _ _ _ _ _ H) as [inner ->].
  discriminate.
Qed.

Lemma path_parts_S pow atan2 hypot fuel seg path tol_dist tol_angle parts part
    polyseg a :
  segment2polyline pow atan2 hypot fuel seg tol_dist tol_angle = Some (Ok polyseg) ->
  polyseg <> [] ->
  item_last part = Value a ->
  exists b,
    item_first polyseg = Value b /\
    path_parts pow atan2 hypot fuel (seg :: path) tol_dist tol_angle
      (parts ++ [part])
    = path_parts pow atan2 hypot fuel path tol_dist tol_angle
        (if isclose hypot a b 1e-10
         then parts ++ [part ++ polyseg]
         else (parts ++ [part]) ++ [polyseg]).
Proof.
  intros Hseg Hne Ha.
  destruct polyseg as [| b polyseg]; [contradiction |].
  exists b. split; [reflexivity |].
  cbn [path_parts]. rewrite Hseg.
  destruct (parts ++ [part]) as [| p0 ps] eqn:Hparts.
  { destruct parts; discriminate. }
  rewrite <- Hparts, item_last_snoc, Ha. cbn [item_first].
  rewrite extend_last_snoc.
  destruct (isclose hypot a b 1e-10); reflexivity.
Qed.

Lemma path_parts_general pow atan2 hypot fuel tol_dist tol_angle :
  forall path parts0,
    parts_ok parts0 ->
    match path_parts pow atan2 hypot fuel path tol_dist tol_angle parts0 with
    | Some (Value parts) =>
      parts_ok parts /\
      exists polys,
        Forall2 (fun seg polyseg =>
                   segment2polyline pow atan2 hypot fuel seg tol_dist tol_angle
                   = Some (Ok polyseg)) path polys /\
        List.concat parts = List.concat parts0 ++ List.concat polys
    | Some (Error e) => e <> IndexError
    | None => True
    end.
Proof.
  induction path as [| seg path IH]; intros parts0 Hok.
  - cbn. split; [exact Hok |]. exists []. split; [constructor |].
    cbn. rewrite app_nil_r. reflexivity.
  - destruct (segment2polyline pow atan2 hypot fuel seg tol_dist tol_angle)
      as [[polyseg | e] |] eqn:Hseg.
    + pose proof (polyline_nonempty _ _ _ _ _ _ _ _ Hseg) as Hne.
      assert (Hnext : forall parts1,
                 parts_ok parts1 ->
                 List.concat parts1 = List.concat parts0 ++ polyseg ->
                 match path_parts pow atan2 hypot fuel path tol_dist tol_angle parts1 with
                 | Some (Value parts) =>
                   parts_ok parts /\
                   exists polys,
                     Forall2 (fun seg polyseg =>
                                segment2polyline pow atan2 hypot fuel seg tol_dist
                                  tol_angle = Some (Ok polyseg))
                       (seg :: path) polys /\
                     List.concat parts = List.concat parts0 ++ List.concat polys
                 | Some (Error e) => e <> IndexError
                 | None => True
                 end).
      { intros parts1 Hok1 Hcat. specialize (IH parts1 Hok1).
        destruct (path_parts pow atan2 hypot fuel path tol_dist tol_angle parts1)
          as [[parts | e] |]; auto.
        destruct IH as [Hokp (polys & Hall & Hparts)].
        split; [exact Hokp |].
        exists (polyseg :: polys). split; [constructor; assumption |].
        rewrite Hparts, Hcat. cbn [List.concat]. rewrite app_assoc. reflexivity. }
      destruct parts0 as [| p0 ps] eqn:Hparts0.
      * cbn [path_parts]. rewrite Hseg. apply Hnext.
        -- constructor; [exact Hne | constructor].
        -- cbn. rewrite app_nil_r. reflexivity.
      * rewrite <- Hparts0 in *.
        assert (Hnonnil : parts0 <> []) by (subst; discriminate).
        destruct (exists_last Hnonnil) as (parts & part & Hsplit).
        rewrite Hsplit in *.
        assert (Hpart : part <> []).
        { apply Forall_app in Hok. destruct Hok as [_ Hok].
          inversion Hok; assumption. }
        destruct (item_last_value part Hpart) as (a & l' & _ & Ha).
        destruct (path_parts_S pow atan2 hypot fuel seg path tol_dist tol_angle
                    parts part polyseg a Hseg Hne Ha) as (b & _ & ->).
        apply Hnext.
        -- apply Forall_app in Hok. destruct Hok as [Hparts Hlast].
           destruct (isclose hypot a b 1e-10).
           ++ apply Forall_app. split; [exact Hparts |].
              constructor; [| constructor].
              intros Happ. apply app_eq_nil in Happ. tauto.
           ++ apply Forall_app. split.
              ** apply Forall_app. split; assumption.
              ** constructor; [exact Hne | constructor].
        -- destruct (isclose hypot a b 1e-10).
           ++ rewrite !concat_app. cbn [List.concat]. rewrite !app_nil_r.
              rewrite app_assoc. reflexivity.
           ++ rewrite !concat_app. cbn [List.concat]. rewrite !app_nil_r.
              reflexivity.
    + destruct parts0; cbn [path_parts]; rewrite Hseg; discriminate.
    + destruct parts0; cbn [path_parts]; rewrite Hseg; exact I.
Qed.

(** X11: the parts of a path are the polylines of its segments, in order,
    cut into groups.  No point is dropped, moved or merged: the
    concatenation of the parts is the concatenation of the polylines (so a
    point at which two polylines are joined occurs twice), and no part is
    empty. *)
Theorem path_parts_points pow atan2 hypot fuel path tol_dist tol_angle parts :
  path_parts pow atan2 hypot fuel path tol_dist tol_angle [] = Some (Value parts) ->
  Forall (fun part => part <> []) parts /\
  exists polys,
    Forall2 (fun seg polyseg =>
               segment2polyline pow atan2 hypot fuel seg tol_dist tol_angle
               = Some (Ok polyseg)) path polys /\
    List.concat parts = List.concat polys.
Proof.
  intros H.
  pose proof (path_parts_general pow atan2 hypot fuel tol_dist tol_angle path []
                (Forall_nil _)) as Hgen.
  rewrite H in Hgen. exact Hgen.
Qed.

Lemma path_parts_points_witness :
  path_parts pow_square atan2_axes hypot_sqrt 1
    [Line (Complex 0 0) (Complex 1 0);
     QuadraticBezier (Complex 1 0) (Complex 2 1) (Complex 3 0);
     Line (Complex 5 5) (Complex 6 6)] 1 0 []
  = Some (Value [[Complex 0 0; Complex 1 0; Complex 1 0; Complex 2 0.5;
                  Complex 3 0];
                 [Complex 5 5; Complex 6 6]])
  /\
  exists polys,
    Forall2 (fun seg polyseg =>
               segment2polyline pow_square atan2_axes hypot_sqrt 1 seg 1 0
               = Some (Ok polyseg))
      [Line (Complex 0 0) (Complex 1 0);
       QuadraticBezier (Complex 1 0) (Complex 2 1) (Complex 3 0);
       Line (Complex 5 5) (Complex 6 6)] polys /\
    List.concat [[Complex 0 0; Complex 1 0; Complex 1 0; Complex 2 0.5;
                  Complex 3 0];
                 [Complex 5 5; Complex 6 6]]
    = List.concat polys.
Proof.
  assert (H : path_parts pow_square atan2_axes hypot_sqrt 1
                [Line (Complex 0 0) (Complex 1 0);
                 QuadraticBezier (Complex 1 0) (Complex 2 1) (Complex 3 0);
                 Line (Complex 5 5) (Complex 6 6)] 1 0 []
              = Some (Value [[Complex 0 0; Complex 1 0; Complex 1 0;
                              Complex 2 0.5; Complex 3 0];
                             [Complex 5 5; Complex 6 6]]))
    by reflexivity.
  split; [exact H |].
  exact (proj2 (path_parts_points pow_square atan2_axes hypot_sqrt 1 _ 1 0 _ H)).
Defined.

(** X12: the indexing [parts[-1][-1]] and [polyseg[0]] in the loop never
    fails: collecting the parts of a path raises no [IndexError], whatever
    the segments are. *)
Theorem path_parts_no_index_error pow atan2 hypot fuel path tol_dist tol_angle :
  path_parts pow atan2 hypot fuel path tol_dist tol_angle []
  <> Some (Error IndexError).
Proof.
  intros H.
  pose proof (path_parts_general pow atan2 hypot fuel tol_dist tol_angle path []
                (Forall_nil _)) as Hgen.
  rewrite H in Hgen. exact (Hgen eq_refl).
Qed.

Lemma path_parts_single pow atan2 hypot fuel tol_dist tol_angle :
  forall path part a parts,
    item_last part = Value a ->
    match path with
    | [] => True
    | seg :: _ => a = segment_start seg /\ number_point a
    end ->
    continuous path ->
    path_parts pow atan2 hypot fuel path tol_dist tol_angle [part]
    = Some (Value parts) ->
    exists whole, parts = [whole].
Proof.
  induction path as [| seg path IH]; intros part a parts Ha Hjoin Hcont.
  - intros [= <-]. exists part. reflexivity.
  - destruct (segment2polyline pow atan2 hypot fuel seg tol_dist tol_angle)
      as [[polyseg | e] |] eqn:Hseg.
    + pose proof (polyline_nonempty _ _ _ _ _ _ _ _ Hseg) as Hne.
      destruct (path_parts_S pow atan2 hypot fuel seg path tol_dist tol_angle
                  [] part polyseg a Hseg Hne Ha) as (b & Hb & Hstep).
      cbn [app] in Hstep. rewrite Hstep. clear Hstep.
      destruct (segment2polyline_endpoints _ _ _ _ _ _ _ _ Hseg) as [inner ->].
      cbn [item_first] in Hb. injection Hb as <-.
      destruct Hjoin as [-> Hnum].
      rewrite (isclose_same hypot _ 1e-10 Hnum).
      apply (IH _ (segment_end seg)).
      * change (segment_start seg :: inner ++ [segment_end seg])
          with ([segment_start seg] ++ inner ++ [segment_end seg]).
        rewrite !app_assoc. apply item_last_snoc.
      * destruct Hcont as [Hnext _]. destruct path as [| next path]; [exact I |].
        destruct Hnext as [Heq Hnum']. split; [exact Heq |].
        exact Hnum'.
      * destruct Hcont as [_ Hcont]. exact Hcont.
    + cbn [path_parts]. rewrite Hseg. discriminate.
    + cbn [path_parts]. rewrite Hseg. discriminate.
Qed.

(** X13: a continuous path gives one part.  When every segment of a
    nonempty path starts exactly at the point (with coordinates that are
    not NaN) where the segment before it ends, all its polylines are
    joined: the result has a single part. *)
Theorem continuous_path_single_part pow atan2 hypot fuel path tol_dist tol_angle
    parts :
  path <> [] ->
  continuous path ->
  path_parts pow atan2 hypot fuel path tol_dist tol_angle [] = Some (Value parts) ->
  exists whole, parts = [whole].
Proof.
  intros Hne Hcont.
  destruct path as [| seg path]; [contradiction |].
  cbn [path_parts].
  destruct (segment2polyline pow atan2 hypot fuel seg tol_dist tol_angle)
    as [[polyseg | e] |] eqn:Hseg; try discriminate.
  destruct (segment2polyline_endpoints _ _ _ _ _ _ _ _ Hseg) as [inner ->].
  cbn [app].
  apply (path_parts_single pow atan2 hypot fuel tol_dist tol_angle path
           _ (segment_end seg)).
  - change (segment_start seg :: inner ++ [segment_end seg])
      with ([segment_start seg] ++ inner ++ [segment_end seg]).
    rewrite !app_assoc. apply item_last_snoc.
  - destruct Hcont as [Hnext _]. destruct path as [| next path]; [exact I |].
    exact Hnext.
  - destruct Hcont as [_ Hcont]. exact Hcont.
Qed.

Lemma continuous_path_single_part_witness :
  continuous [Line (Complex 0 0) (Complex 1 0);
              QuadraticBezier (Complex 1 0) (Complex 2 1) (Complex 3 0)]
  /\
  exists whole,
    [[Complex 0 0; Complex 1 0; Complex 1 0; Complex 2 0.5; Complex 3 0]]
    = [whole].
Proof.
  assert (Hc : continuous
                 [Line (Complex 0 0) (Complex 1 0);
                  QuadraticBezier (Complex 1 0) (Complex 2 1) (Complex 3 0)]).
  { cbn. repeat split. }
  split; [exact Hc |].
  refine (continuous_path_single_part pow_square atan2_axes hypot_sqrt 1
            [Line (Complex 0 0) (Complex 1 0);
             QuadraticBezier (Complex 1 0) (Complex 2 1) (Complex 3 0)]
            1 0 _ _ Hc _).
  - discriminate.
  - reflexivity.
Defined.

(** * The bounding box *)

(** ** The order of binary64 numbers *)

Ltac compare_cases :=
  repeat match goal with
  | H : context [Pos.compare_cont Eq ?a ?b] |- _ =>
    change (Pos.compare_cont Eq a b) with (Pos.compare a b) in H
  | |- context [Pos.compare_cont Eq ?a ?b] =>
    change (Pos.compare_cont Eq a b) with (Pos.compare a b)
  | H : context [(?a ?= ?b)%Z] |- _ => destruct (Z.compare_spec a b)
  | |- context [(?a ?= ?b)%Z] => destruct (Z.compare_spec a b)
  | H : context [(?a ?= ?b)%positive] |- _ => destruct (Pos.compare_spec a b)
  | |- context [(?a ?= ?b)%positive] => destruct (Pos.compare_spec a b)
  end.

Lemma SFltb_irrefl (x : spec_float) : SFltb x x = false.
Proof.
  unfold SFltb, SFcompare.
  destruct x as [s | s | | s m e]; try reflexivity.
  - destruct s; reflexivity.
  - destruct s; rewrite Z.compare_refl;
      change (Pos.compare_cont Eq m m) with (Pos.compare m m);
      rewrite Pos.compare_refl; reflexivity.
Qed.

Lemma SFltb_trans (x y z : spec_float) :
  SFltb x y = true -> SFltb y z = true -> SFltb x z = true.
Proof.
  unfold SFltb, SFcompare.
  destruct x as [sx | sx | | sx mx ex];
    destruct y as [sy | sy | | sy my ey];
    destruct z as [sz | sz | | sz mz ez];
    try discriminate; try reflexivity;
    try destruct sx; try destruct sy; try destruct sz;
    try discriminate; try reflexivity;
    intros Hxy Hyz; compare_cases; cbn in *;
    try discriminate; try reflexivity; try lia.
Qed.

Lemma ltb_irrefl (x : float) : (x <? x) = false.
Proof. rewrite ltb_spec. apply SFltb_irrefl. Qed.

Lemma ltb_trans (x y z : float) :
  (x <? y) = true -> (y <? z) = true -> (x <? z) = true.
Proof. rewrite !ltb_spec. apply SFltb_trans. Qed.

(** ** The running minimum and maximum *)

Lemma py_min_keeps (m x y : float) :
  (y <? m) = false -> (y <? py_min m x) = false.
Proof.
  intros H. unfold py_min. destruct (x <? m) eqn:Hx; [| exact H].
  destruct (y <? x) eqn:Hy; [| reflexivity].
  rewrite (ltb_trans _ _ _ Hy Hx) in H. discriminate.
Qed.

Lemma py_min_new (m x : float) : (x <? py_min m x) = false.
Proof.
  unfold py_min. destruct (x <? m) eqn:Hx; [apply ltb_irrefl | exact Hx].
Qed.

Lemma py_max_keeps (m x y : float) :
  (m <? y) = false -> (py_max m x <? y) = false.
Proof.
  intros H. unfold py_max. destruct (m <? x) eqn:Hx; [| exact H].
  destruct (x <? y) eqn:Hy; [| reflexivity].
  rewrite (ltb_trans _ _ _ Hx Hy) in H. discriminate.
Qed.

Lemma py_max_new (m x : float) : (py_max m x <? x) = false.
Proof.
  unfold py_max. destruct (m <? x) eqn:Hx; [apply ltb_irrefl | exact Hx].
Qed.

Lemma extent_point_keeps e q p : covers e p -> covers (extent_point e q) p.
Proof.
  intros (H1 & H2 & H3 & H4). unfold covers, extent_point. cbn.
  repeat split;
    [apply py_min_keeps | apply py_max_keeps
     | apply py_min_keeps | apply py_max_keeps]; assumption.
Qed.

Lemma extent_point_new e q : covers (extent_point e q) q.
Proof.
  unfold covers, extent_point. cbn.
  repeat split;
    [apply py_min_new | apply py_max_new | apply py_min_new | apply py_max_new].
Qed.

Lemma extent_part part :
  forall e p,
    covers e p \/ In p part -> covers (fold_left extent_point part e) p.
Proof.
  induction part as [| q part IH]; intros e p H; cbn [fold_left].
  - destruct H as [H | []]. exact H.
  - apply IH. destruct H as [H | [<- | H]].
    + left. apply extent_point_keeps, H.
    + left. apply extent_point_new.
    + right. exact H.
Qed.

Lemma extent_path path :
  forall e p,
    covers e p \/ (exists part, In part path /\ In p part) ->
    covers (fold_left (fun e part => fold_left extent_point part e) path e) p.
Proof.
  induction path as [| part path IH]; intros e p H; cbn [fold_left].
  - destruct H as [H | (part & [] & _)]. exact H.
  - apply IH. destruct H as [H | (part' & [<- | Hin] & Hp)].
    + left. apply extent_part. left. exact H.
    + left. apply extent_part. right. exact Hp.
    + right. exists part'. split; assumption.
Qed.

Lemma extent_paths paths :
  forall e p,
    covers e p \/
    (exists path part, In path paths /\ In part path /\ In p part) ->
    covers
      (fold_left
         (fun e path =>
            fold_left (fun e part => fold_left extent_point part e) path e)
         paths e) p.
Proof.
  induction paths as [| path paths IH]; intros e p H; cbn [fold_left].
  - destruct H as [H | (path & part & [] & _)]. exact H.
  - apply IH. destruct H as [H | (path' & part & [<- | Hin] & Hpart & Hp)].
    + left. apply extent_path. left. exact H.
    + left. apply extent_path. right. exists part. split; assumption.
    + right. exists path', part. repeat split; assumption.
Qed.

(** X14: the extremes [minx], [maxx], [miny], [maxy] that the loops of
    [bounding_box] compute bound every point of every part of every path:
    no point has a coordinate below the minimum or above the maximum.  (A
    NaN coordinate never becomes an extreme; it is neither below nor above
    anything.) *)
Theorem bounding_extent_covers paths path part p :
  In path paths -> In part path -> In p part ->
  covers (bounding_extent paths) p.
Proof.
  intros Hpath Hpart Hp. unfold bounding_extent.
  apply extent_paths. right. exists path, part. repeat split; assumption.
Qed.

Lemma bounding_extent_covers_witness :
  covers (bounding_extent [[[Complex 1 2; Complex (-1) 5]; [Complex 0 0]]])
    (Complex (-1) 5).
Proof.
  apply (bounding_extent_covers
           [[[Complex 1 2; Complex (-1) 5]; [Complex 0 0]]]
           [[Complex 1 2; Complex (-1) 5]; [Complex 0 0]]
           [Complex 1 2; Complex (-1) 5]).
  - left. reflexivity.
  - left. reflexivity.
  - right. left. reflexivity.
Defined.

Lemma bounding_extent_no_point paths :
  (forall path part, In path paths -> In part path -> part = []) ->
  bounding_extent paths = Extent infinity neg_infinity infinity neg_infinity.
Proof.
  unfold bounding_extent.
  generalize (Extent infinity neg_infinity infinity neg_infinity).
  induction paths as [| path paths IH]; intros e H; [reflexivity |].
  cbn [fold_left].
  assert (Hpath : fold_left (fun e part => fold_left extent_point part e) path e
                  = e).
  { assert (Hparts : forall part, In part path -> part = [])
      by (intros part; apply H; left; reflexivity).
    clear H IH. revert e.
    induction path as [| part path IHp]; intros e; [reflexivity |].
    cbn [fold_left]. rewrite (Hparts part (or_introl eq_refl)). cbn [fold_left].
    apply IHp. intros part' Hin. apply Hparts. right. exact Hin. }
  rewrite Hpath. apply IH.
  intros path' part Hin. apply H. right. exact Hin.
Qed.

(** X15: the bounding box of no point at all (no path, or only paths
    without parts, or only empty parts) is not the pair of infinities the
    loops start from: the sums [minx + miny*1j] and [maxx + maxy*1j] turn
    the real parts into NaN.  The result is [(nan+infj, nan-infj)]. *)
Theorem bounding_box_no_point paths :
  (forall path part, In path paths -> In part path -> part = []) ->
  bounding_box paths
  = (Complex nan infinity, Complex nan neg_infinity).
Proof.
  intros H. unfold bounding_box. cbv zeta.
  rewrite (bounding_extent_no_point paths H). reflexivity.
Qed.

Lemma bounding_box_no_point_witness :
  bounding_box [[]; [[]; []]]
  = (Complex nan infinity, Complex nan neg_infinity).
Proof.
  apply (bounding_box_no_point [[]; [[]; []]]).
  intros path part [<- | [<- | []]].
  - intros [].
  - intros [<- | [<- | []]]; reflexivity.
Defined.

(** * polyline2pathd *)

Lemma prefix_pair a b c s :
  String.prefix (String a (String b EmptyString)) (String c s) = true ->
  c = a /\ exists rest, s = String b rest.
Proof.
  cbn [String.prefix]. destruct (Ascii.ascii_dec a c) as [<- |]; [| discriminate].
  destruct s as [| d rest]; cbn [String.prefix]; [discriminate |].
  destruct (Ascii.ascii_dec b d) as [<- |]; [| discriminate].
  intros _. split; [reflexivity | exists rest; reflexivity].
Qed.

Lemma blank_append s t : blank (s ++ t)%string = blank s && blank t.
Proof.
  induction s as [| c s IH]; [reflexivity |].
  cbn [append blank]. rewrite IH, andb_assoc. reflexivity.
Qed.

(** Replacing a pair of characters of which one is not whitespace by a
    character that is not whitespace keeps a string blank or not blank. *)
Lemma replace_pair_blank a b n s :
  isspace n = false ->
  isspace a && isspace b = false ->
  blank (replace (String a (String b EmptyString)) (String n EmptyString) s)
  = blank s.
Proof.
  intros Hn Hab. unfold replace.
  induction s as [| c s IH]; [reflexivity |].
  cbn [replace_from].
  destruct (String.prefix (String a (String b EmptyString)) (String c s))
    eqn:Hp.
  - destruct (prefix_pair _ _ _ _ Hp) as [-> [rest ->]].
    cbn [append blank]. rewrite Hn.
    rewrite andb_assoc, Hab. reflexivity.
  - cbn [blank]. rewrite IH. reflexivity.
Qed.

Lemma split_from_blank s :
  push (fst (split_from s)) (snd (split_from s)) = [] <-> blank s = true.
Proof.
  induction s as [| c s IH]; [cbn; tauto |].
  cbn [split_from blank].
  destruct (split_from s) as [tok toks]. cbn [fst snd] in IH.
  destruct (isspace c); cbn [fst snd push andb].
  - exact IH.
  - split; discriminate.
Qed.

Lemma split_blank s : split s = [] <-> blank s = true.
Proof.
  unfold split. rewrite <- split_from_blank.
  destruct (split_from s); reflexivity.
Qed.

(** X16: [polyline2pathd] raises [IndexError] exactly on a string of
    whitespace only (the empty string included), where [points[0]] does
    not exist; on every other string it returns a path string. *)
Theorem polyline2pathd_blank polyline_d :
  polyline2pathd polyline_d = Error IndexError <-> blank polyline_d = true.
Proof.
  unfold polyline2pathd. cbv zeta.
  rewrite <- (replace_pair_blank ","%char " "%char ","%char polyline_d eq_refl eq_refl).
  rewrite <- (replace_pair_blank " "%char ","%char ","%char _ eq_refl eq_refl).
  rewrite <- split_blank.
  destruct (split _) as [| first rest].
  - split; reflexivity.
  - split; discriminate.
Qed.

Example polyline2pathd_blank_example :
  polyline2pathd "  " = Error IndexError
  /\ polyline2pathd "0,0 10,0 10,10" = Value "M0 0L10 0L10 10"%string
  /\ polyline2pathd "0, 0 10 ,0 0,0" = Value "M0 0L10 0L0 0z"%string.
Proof. split; [| split]; reflexivity. Qed.

Lemma free_of_append x s t :
  free_of x (s ++ t)%string = free_of x s && free_of x t.
Proof.
  induction s as [| c s IH]; [reflexivity |].
  cbn [append free_of]. rewrite IH, andb_assoc. reflexivity.
Qed.

Lemma replace_comma_free s : free_of ","%char (replace "," " " s) = true.
Proof.
  unfold replace. induction s as [| c s IH]; [reflexivity |].
  cbn [replace_from String.prefix String.length Nat.sub].
  destruct (Ascii.ascii_dec ","%char c) as [<- | Hc].
  - replace (String.prefix "" s) with true by (destruct s; reflexivity).
    cbn [append free_of]. rewrite IH. reflexivity.
  - cbn [free_of]. rewrite IH, andb_true_r.
    apply negb_true_iff, Ascii.eqb_neq. congruence.
Qed.

Lemma fold_comma_free rest :
  forall d,
    free_of ","%char d = true ->
    free_of ","%char
      (fold_left (fun d p => (d ++ "L" ++ replace "," " " p)%string) rest d)
    = true.
Proof.
  induction rest as [| p rest IH]; intros d Hd; [exact Hd |].
  cbn [fold_left]. apply IH.
  rewrite !free_of_append, Hd, replace_comma_free. reflexivity.
Qed.

(** X17: the path string that [polyline2pathd] returns contains no comma:
    every comma of the input has become a space (or has gone, with the
    space beside it). *)
Theorem polyline2pathd_comma_free polyline_d d :
  polyline2pathd polyline_d = Value d -> free_of ","%char d = true.
Proof.
  unfold polyline2pathd. cbv zeta.
  destruct (split _) as [| first rest]; [discriminate |].
  intros Hd.
  match type of Hd with
  | Value (if ?c then (?X ++ "z")%string else ?X) = Value d =>
    assert (HX : free_of ","%char X = true);
      [| assert (Heq : d = if c then (X ++ "z")%string else X) by congruence;
         rewrite Heq; destruct c; rewrite ?free_of_append, HX; reflexivity]
  end.
  apply fold_comma_free. rewrite free_of_append, replace_comma_free.
  reflexivity.
Qed.

Lemma polyline2pathd_comma_free_witness :
  polyline2pathd "0, 0 10 ,0 0,0" = Value "M0 0L10 0L0 0z"%string
  /\ free_of ","%char "M0 0L10 0L0 0z" = true.
Proof.
  assert (H : polyline2pathd "0, 0 10 ,0 0,0" = Value "M0 0L10 0L0 0z"%string)
    by reflexivity.
  split; [exact H |].
  exact (polyline2pathd_comma_free "0, 0 10 ,0 0,0" "M0 0L10 0L0 0z" H).
Defined.

(** ** Well-formed input *)

Lemma append_empty (s : string) : (s ++ "")%string = s.
Proof. induction s as [| c s IH]; [reflexivity |]. cbn. rewrite IH. reflexivity. Qed.

Lemma append_associative (s t u : string) :
  ((s ++ t) ++ u)%string = (s ++ (t ++ u))%string.
Proof. induction s as [| c s IH]; [reflexivity |]. cbn. rewrite IH. reflexivity. Qed.

Lemma replace_absent a b new s :
  occurs_pair a b s = false ->
  replace (String a (String b EmptyString)) new s = s.
Proof.
  unfold replace. induction s as [| c s IH]; [reflexivity |].
  cbn [occurs_pair replace_from]. intros H.
  apply orb_false_iff in H. destruct H as [Hhere Hlater].
  destruct (String.prefix (String a (String b EmptyString)) (String c s))
    eqn:Hp.
  - destruct (prefix_pair _ _ _ _ Hp) as [-> [rest ->]].
    cbn [first_char] in Hhere. rewrite !Ascii.eqb_refl in Hhere.
    discriminate.
  - rewrite (IH Hlater). reflexivity.
Qed.

(** No pair with a whitespace character begins inside a token; at its end
    a pair [a], [b] begins only if the token ends with [a]. *)
Lemma occurs_pair_token a b t s :
  solid t = true ->
  isspace a = true \/ (isspace b = true /\ last_char t <> Some a) ->
  occurs_pair a b (t ++ s) = occurs_pair a b s.
Proof.
  intros Hsolid Hab. induction t as [| c t IH]; [reflexivity |].
  cbn [solid] in Hsolid. apply andb_true_iff in Hsolid.
  destruct Hsolid as [Hc Hsolid]. apply negb_true_iff in Hc.
  cbn [append occurs_pair].
  rewrite IH; [| exact Hsolid |].
  - match goal with |- (?x || _) = _ => assert (Hx : x = false) end;
      [| rewrite Hx; reflexivity].
    destruct Hab as [Ha | [Hb Hlast]].
    + destruct (Ascii.eqb_spec c a) as [-> |]; [congruence | reflexivity].
    + destruct t as [| d t].
      * cbn [last_char] in Hlast.
        destruct (Ascii.eqb_spec c a) as [-> |]; [congruence | reflexivity].
      * cbn [append first_char]. cbn [solid] in Hsolid.
        apply andb_true_iff in Hsolid. destruct Hsolid as [Hd _].
        apply negb_true_iff in Hd.
        destruct (Ascii.eqb_spec d b) as [-> |]; [congruence |].
        apply andb_false_r.
  - destruct Hab as [Ha | [Hb Hlast]]; [left; exact Ha | right].
    split; [exact Hb |]. destruct t; [discriminate | exact Hlast].
Qed.

Lemma join_spaces_free (a b : ascii) tokens :
  Forall point_token tokens ->
  (a = ","%char /\ b = " "%char) \/ (a = " "%char /\ b = ","%char) ->
  occurs_pair a b (join_spaces tokens) = false.
Proof.
  intros Htok Hab. induction Htok as [| t rest Ht Hrest IH]; [reflexivity |].
  destruct Ht as (Hne & Hsolid & Hfirst & Hlast).
  assert (Hside : isspace a = true \/ (isspace b = true /\ last_char t <> Some a)).
  { destruct Hab as [[-> ->] | [-> ->]];
      [right; split; [reflexivity | exact Hlast] | left; reflexivity]. }
  destruct rest as [| t' rest].
  - cbn [join_spaces]. rewrite <- (append_empty t).
    rewrite occurs_pair_token by assumption. reflexivity.
  - change (join_spaces (t :: t' :: rest))
      with (t ++ " " ++ join_spaces (t' :: rest))%string.
    rewrite occurs_pair_token by assumption.
    change (" " ++ join_spaces (t' :: rest))%string
      with (String " " (join_spaces (t' :: rest))).
    cbn [occurs_pair]. rewrite IH, orb_false_r.
    destruct Hab as [[-> ->] | [-> ->]]; [reflexivity |].
    inversion Hrest as [| ? ? Ht' _]; subst.
    destruct Ht' as (Hne' & _ & Hfirst' & _).
    destruct t' as [| c t']; [contradiction |].
    assert (Hc : first_char (join_spaces (String c t' :: rest)) = Some c)
      by (cbn [join_spaces]; destruct rest; reflexivity).
    rewrite Hc. cbn [first_char] in Hfirst'.
    destruct (Ascii.eqb_spec c ","%char) as [-> |]; [congruence | reflexivity].
Qed.

Lemma split_from_token t s :
  solid t = true ->
  split_from (t ++ s) = ((t ++ fst (split_from s))%string, snd (split_from s)).
Proof.
  intros Hsolid. induction t as [| c t IH].
  - cbn [append]. destruct (split_from s); reflexivity.
  - cbn [solid] in Hsolid. apply andb_true_iff in Hsolid.
    destruct Hsolid as [Hc Hsolid]. apply negb_true_iff in Hc.
    cbn [append split_from]. rewrite (IH Hsolid), Hc. reflexivity.
Qed.

Lemma split_from_join t rest :
  Forall point_token (t :: rest) ->
  split_from (join_spaces (t :: rest)) = (t, rest).
Proof.
  revert t. induction rest as [| t' rest IH]; intros t Htok;
    inversion Htok as [| ? ? Ht Hrest]; subst;
    destruct Ht as (Hne & Hsolid & _).
  - cbn [join_spaces]. rewrite <- (append_empty t) at 1.
    rewrite (split_from_token _ _ Hsolid). cbn. rewrite append_empty.
    reflexivity.
  - change (join_spaces (t :: t' :: rest))
      with (t ++ " " ++ join_spaces (t' :: rest))%string.
    rewrite (split_from_token _ _ Hsolid).
    change (" " ++ join_spaces (t' :: rest))%string
      with (String " " (join_spaces (t' :: rest))).
    cbn [split_from]. rewrite (IH t' Hrest).
    change (isspace " ") with true. cbn [fst snd]. rewrite append_empty.
    inversion Hrest as [| ? ? Ht' _]; subst. destruct Ht' as (Hne' & _).
    destruct t'; [contradiction | reflexivity].
Qed.

Lemma fold_line_commands rest :
  forall d,
    fold_left (fun d p => (d ++ "L" ++ replace "," " " p)%string) rest d
    = (d ++ line_commands rest)%string.
Proof.
  induction rest as [| p rest IH]; intros d; cbn [fold_left line_commands].
  - rewrite append_empty. reflexivity.
  - rewrite IH, !append_associative. reflexivity.
Qed.

(** X18: on a [points] attribute written as meant (points such as
    ["10,20"], without whitespace inside, separated by single spaces)
    [polyline2pathd] gives the path that moves to the first point and
    draws a line to each further point, with the commas turned into
    spaces; the path is closed by [z] exactly when the last point is
    written as the first one is. *)
Theorem polyline2pathd_points first rest :
  Forall point_token (first :: rest) ->
  polyline2pathd (join_spaces (first :: rest))
  = Value (("M" ++ replace "," " " first ++ line_commands rest)
           ++ (if String.eqb first (last rest first) then "z" else ""))%string.
Proof.
  intros Htok. unfold polyline2pathd. cbv zeta.
  rewrite (replace_absent ","%char " "%char)
    by (apply join_spaces_free; [exact Htok | left; split; reflexivity]).
  rewrite (replace_absent " "%char ","%char)
    by (apply join_spaces_free; [exact Htok | right; split; reflexivity]).
  unfold split. rewrite (split_from_join first rest Htok).
  inversion Htok as [| ? ? Hfirst _]; subst. destruct Hfirst as (Hne & _).
  assert (Hpush : push first rest = first :: rest)
    by (destruct first; [contradiction | reflexivity]).
  rewrite Hpush, fold_line_commands.
  assert (Hlast : last (first :: rest) first = last rest first)
    by (destruct rest; reflexivity).
  rewrite Hlast.
  destruct (String.eqb first (last rest first)).
  - rewrite !append_associative. reflexivity.
  - rewrite append_empty, !append_associative. reflexivity.
Qed.

Lemma polyline2pathd_points_witness :
  polyline2pathd "0,0 10,0 10,10 0,0"
  = Value "M0 0L10 0L10 10L0 0z"%string.
Proof.
  refine (polyline2pathd_points "0,0" ["10,0"; "10,10"; "0,0"]%string _).
  repeat constructor; discriminate.
Defined.

(** * The geometry of a path in the GeoJSON output *)

Lemma all_closed_value hypot path :
  Forall (fun part => part <> []) path ->
  exists ispolygon, all_closed hypot path = Value ispolygon.
Proof.
  induction 1 as [| part path Hpart _ IH]; [exists true; reflexivity |].
  cbn [all_closed].
  destruct part as [| a part]; [contradiction |].
  cbn [item_first item_last].
  destruct (isclose hypot a (last part a) 1e-10); [exact IH |].
  exists false. reflexivity.
Qed.

(** X19: for the paths that [svg2linesegments] produces (no part is empty)
    the geometry of a path fails exactly when the path has no part at all
    (a path without segments): [parts[0]] then raises [IndexError],
    whether polygons are asked for or not.  A path with parts always gets
    a geometry, a [Multi...] one exactly when it has more than one part. *)
Theorem path_geometry_empty hypot polygon path :
  Forall (fun part => part <> []) path ->
  (path = [] -> path_geometry hypot polygon path = Error IndexError)
  /\
  (path <> [] ->
   exists g,
     path_geometry hypot polygon path = Value g /\
     ((1 < List.length path)%nat <->
      exists coords, g = MultiPolygon coords \/ g = MultiLineString coords)).
Proof.
  intros Hparts. split.
  - intros ->. destruct polygon; reflexivity.
  - intros Hne. unfold path_geometry. cbv zeta.
    destruct (all_closed_value hypot path Hparts) as [ispolygon ->].
    rewrite length_map.
    destruct path as [| part path]; [contradiction |].
    destruct (1 <? List.length (part :: path))%nat eqn:Hlen.
    + apply Nat.ltb_lt in Hlen.
      destruct (polygon && ispolygon); eexists; (split; [reflexivity |]);
        (split; [intros _; eexists; auto | intros _; exact Hlen]).
    + apply Nat.ltb_ge in Hlen. cbn [map item_first].
      destruct (polygon && ispolygon); eexists; (split; [reflexivity |]);
        (split; [intros Hlt; lia | intros [coords [H | H]]; discriminate H]).
Qed.

Lemma path_geometry_empty_witness :
  path_geometry hypot_sqrt true [] = Error IndexError.
Proof.
  apply (proj1 (path_geometry_empty hypot_sqrt true [] (Forall_nil _))).
  reflexivity.
Defined.

Example path_geometry_ring :
  path_geometry hypot_sqrt true
    [[Complex 0 0; Complex 1 0; Complex 1 1; Complex 0 0]]
  = Value (Polygon [(0, 0); (1, 0); (1, 1); (0, 0)])
  /\
  path_geometry hypot_sqrt true
    [[Complex 0 0; Complex 1 0; Complex 1 1]]
  = Value (LineString [(0, 0); (1, 0); (1, 1)]).
Proof. split; reflexivity. Qed.

(** * A transform function *)

(** X20: [rotate(a, cx, cy)] takes its centre into account only when both
    [cx] and [cy] are nonzero.  When one of them is zero the two
    translations around the rotation are left out and the result is that
    of [rotate(a)], a rotation about the origin. *)
Theorem rotate_centre_ignored (matrix : Type) array matmul cos sin tan
    (mtx : matrix) group0 a x y :
  truthy x && truthy y = false ->
  transform_step matrix array matmul cos sin tan mtx "rotate" group0 [a; x; y]
  = transform_step matrix array matmul cos sin tan mtx "rotate" group0 [a].
Proof.
  intros H. unfold transform_step. cbn. rewrite H. reflexivity.
Qed.

Lemma rotate_centre_ignored_witness :
  truthy 5 && truthy 0 = false /\
  transform_step matrix3 array3 matmul3 cos_at_0 sin_at_0 sin_at_0 eye3
    "rotate" "rotate(0, 5, 0)" [0; 5; 0]
  = transform_step matrix3 array3 matmul3 cos_at_0 sin_at_0 sin_at_0 eye3
      "rotate" "rotate(0, 5, 0)" [0].
Proof.
  assert (H : truthy 5 && truthy 0 = false) by reflexivity.
  split; [exact H |].
  exact (rotate_centre_ignored matrix3 array3 matmul3 cos_at_0 sin_at_0
           sin_at_0 eye3 "rotate(0, 5, 0)" 0 5 0 H).
Defined.

(** With both coordinates nonzero the centre is used. *)
Example rotate_centre_used :
  transform_step matrix3 array3 matmul3 cos_at_0 sin_at_0 sin_at_0 eye3
    "rotate" "rotate(0, 5, 7)" [0; 5; 7]
  = Value (matmul3
             (matmul3 (matmul3 eye3 ((1, 0, 5), (0, 1, 7), (0, 0, 1)))
                ((1, -0, 0), (0, 1, 0), (0, 0, 1)))
             ((1, 0, -5), (0, 1, -7), (0, 0, 1))).
Proof. reflexivity. Qed.

(** X21: the numbers that a transform function needs are read by index.
    [rotate] with exactly two numbers raises [IndexError] (a centre needs
    both coordinates), and so does [matrix] with fewer than six. *)
Theorem transform_missing_argument (matrix : Type) array matmul cos sin tan
    (mtx : matrix) group0 :
  (forall a x,
      transform_step matrix array matmul cos sin tan mtx "rotate" group0 [a; x]
      = Error IndexError)
  /\
  (forall args,
      (List.length args < 6)%nat ->
      transform_step matrix array matmul cos sin tan mtx "matrix" group0 args
      = Error IndexError).
Proof.
  split.
  - intros a x. reflexivity.
  - intros args Hlen. unfold transform_step. cbn [String.eqb Ascii.eqb Bool.eqb].
    do 6 (destruct args as [| ? args]; [reflexivity |]).
    cbn [List.length] in Hlen. lia.
Qed.

Lemma transform_missing_argument_witness :
  transform_step matrix3 array3 matmul3 cos_at_0 sin_at_0 sin_at_0 eye3
    "matrix" "matrix(1 0 0 1 5)" [1; 0; 0; 1; 5]
  = Error IndexError.
Proof.
  apply (proj2 (transform_missing_argument matrix3 array3 matmul3 cos_at_0
                  sin_at_0 sin_at_0 eye3 "matrix(1 0 0 1 5)")).
  cbn. lia.
Defined.
